(** * Inopsio AI Enterprise: edge guard, API client and auth service

    A shallow embedding of the TypeScript sources
      - the route protection middleware (EdgeGuard),
      - [frontend/src/lib/api.ts] (token storage, [apiFetch]),
      - the auth service ([login], [decodeToken], [isTokenExpired]),
    together with the tenant scoped store of the design, and the
    properties the specification states about them.

    JavaScript strings are modelled as [string] (code units below 256),
    timestamps as [Z], [localStorage], request cookies and headers as
    [gmap]. Numbers are the integers that a double holds exactly; where a
    conversion or a number falls outside of that, a function of the model
    says so in its result instead of guessing. *)

From Stdlib Require Import ZArith String Ascii List Bool Lia DecimalString.
From stdpp Require Import base option list gmap strings.
Import ListNotations.

Local Open Scope string_scope.
Set Warnings "-register-all".

(** ** Platform strings: the part of [String.prototype] the sources use *)

Module Js.

(** [s.startsWith(p)]. *)
Fixpoint startsWith (s p : string) {struct p} : bool :=
  match p, s with
  | EmptyString, _ => true
  | String _ _, EmptyString => false
  | String a p', String b s' => Ascii.eqb a b && startsWith s' p'
  end.

(** [s.includes(p)]: [p] occurs in [s] at some position. *)
Fixpoint includes (s p : string) : bool :=
  startsWith s p ||
  match s with
  | EmptyString => false
  | String _ s' => includes s' p
  end.

(** The character class [[a-z]]. *)
Definition is_lower (c : ascii) : bool :=
  (97 <=? N_of_ascii c)%N && (N_of_ascii c <=? 122)%N.

(** Truthiness of a value of type [string | undefined]. *)
Definition truthy (v : option string) : bool :=
  match v with
  | Some s => negb (String.eqb s "")
  | None => false
  end.


(** [s.split(c)] for a one-character separator: never the empty list. *)
Fixpoint split_on (c : ascii) (s : string) : list string :=
  match s with
  | EmptyString => [""]
  | String a r =>
      if Ascii.eqb a c then "" :: split_on c r
      else match split_on c r with
           | h :: t => String a h :: t
           | [] => [String a ""]
           end
  end.

Definition is_digit (c : ascii) : bool :=
  (48 <=? N_of_ascii c)%N && (N_of_ascii c <=? 57)%N.

Definition is_upper (c : ascii) : bool :=
  (65 <=? N_of_ascii c)%N && (N_of_ascii c <=? 90)%N.

Definition lower_char (c : ascii) : ascii :=
  if is_upper c then ascii_of_N (N_of_ascii c + 32) else c.

Fixpoint to_lower (s : string) : string :=
  match s with
  | EmptyString => EmptyString
  | String c r => String (lower_char c) (to_lower r)
  end.

(** Template literal [`${n}`] for an integer [n]. *)
Definition of_Z (n : Z) : string := NilZero.string_of_int (Z.to_int n).

(** *** JSON values *)

(** A number literal [m * 10^e], kept as it is written. *)
Inductive number := Dec (m e : Z).

Inductive value :=
| Undefined
| Null
| Bool (b : bool)
| Number (n : number)
| Str (s : string)
| Arr (items : list value)
| Obj (props : list (string * value)).

(** The largest magnitude up to which every integer is a double. *)
Definition MAX_EXACT : Z := 9007199254740992.

Definition exact (z : Z) : bool := (Z.abs z <=? MAX_EXACT)%Z.

(** The integer a literal denotes, when it denotes one that doubles hold
    exactly; arithmetic on other numbers is left out of the model. *)
Definition int_of_number (n : number) : option Z :=
  match n with
  | Dec m e =>
      if (0 <=? e)%Z then
        let z := (m * 10 ^ e)%Z in
        if exact z then Some z else None
      else
        let k := (10 ^ (- e))%Z in
        if (m mod k =? 0)%Z && exact (m / k) then Some (m / k)%Z else None
  end.

(** The own property [k] of an object: of members with one name the last
    is kept. *)
Fixpoint own_prop (props : list (string * value)) (k : string) : option value :=
  match props with
  | [] => None
  | (k', v) :: ps =>
      match own_prop ps k with
      | Some w => Some w
      | None => if String.eqb k' k then Some v else None
      end
  end.

(** The numbers the sources compute with: exact integers and [NaN]. *)
Inductive num := NaN | Int (z : Z).

(** How a conversion ends: with its result, with the [TypeError] of an
    object that has no callable conversion method, or [Inexact] where the
    conversion succeeds with a result that this model does not compute
    (the text or the value of a number that is no exact integer, the
    number a string denotes). *)
Inductive conversion (A : Type) :=
| Converted (a : A)
| Type_error
| Inexact.
Arguments Converted {A} a.
Arguments Type_error {A}.
Arguments Inexact {A}.

(** Two pieces of a joined text: the [TypeError] of either piece is the
    outcome, whatever the other piece is. *)
Definition join_texts (sep : string) (a b : conversion string) : conversion string :=
  match a, b with
  | Type_error, _ | _, Type_error => Type_error
  | Inexact, _ | _, Inexact => Inexact
  | Converted x, Converted y => Converted (x +:+ sep +:+ y)
  end.

(** [ToString] of a value that [JSON.parse] built. An object has the
    methods of [Object.prototype] unless a member of its own hides them;
    such a member is never callable, so an object with an own [toString]
    has no conversion left ([valueOf] returns the object or is hidden as
    well) and one without prints as [[object Object]]. An array prints its
    elements joined by commas, [null] and [undefined] as nothing. *)
Fixpoint ToString (v : value) : conversion string :=
  match v with
  | Undefined => Converted "undefined"
  | Null => Converted "null"
  | Bool b => Converted (if b then "true" else "false")
  | Number n =>
      match int_of_number n with
      | Some z => Converted (of_Z z)
      | None => Inexact
      end
  | Str s => Converted s
  | Arr items =>
      (fix join (l : list value) : conversion string :=
         match l with
         | [] => Converted ""
         | x :: r =>
             let text :=
               match x with
               | Undefined | Null => Converted ""
               | _ => ToString x
               end in
             match r with
             | [] => text
             | _ :: _ => join_texts "," text (join r)
             end
         end) items
  | Obj props =>
      match own_prop props "toString" with
      | None => Converted "[object Object]"
      | Some _ => Type_error
      end
  end.

(** [ToNumber]: an object converts through its string form to [NaN]; the
    number that the text of a string or of an array denotes is not
    computed. *)
Definition ToNumber (v : value) : conversion num :=
  match v with
  | Undefined => Converted NaN
  | Null => Converted (Int 0)
  | Bool b => Converted (Int (if b then 1 else 0))
  | Number n =>
      match int_of_number n with
      | Some z => Converted (Int z)
      | None => Inexact
      end
  | Str _ => Inexact
  | Arr _ =>
      match ToString v with
      | Type_error => Type_error
      | _ => Inexact
      end
  | Obj props =>
      match own_prop props "toString" with
      | None => Converted NaN
      | Some _ => Type_error
      end
  end.

(** [x * k] and [x - k] on exact integers; [None] once a result leaves
    the exact range. *)
Definition num_mul (x : num) (k : Z) : option num :=
  match x with
  | NaN => Some NaN
  | Int z => if exact (z * k) then Some (Int (z * k)) else None
  end.

Definition num_sub (x : num) (k : Z) : option num :=
  match x with
  | NaN => Some NaN
  | Int z => if exact (z - k) then Some (Int (z - k)) else None
  end.

(** [t >= x] for an integer [t]: false against [NaN]. *)
Definition ge_num (t : Z) (x : num) : bool :=
  match x with
  | NaN => false
  | Int z => (z <=? t)%Z
  end.

(** [ToBoolean]; [None] on an inexact number. *)
Definition ToBoolean (v : value) : option bool :=
  match v with
  | Undefined | Null => Some false
  | Bool b => Some b
  | Number n => (fun z => negb (z =? 0)%Z) <$> int_of_number n
  | Str s => Some (negb (String.eqb s ""))
  | Arr _ | Obj _ => Some true
  end.

(** [v.k] for a name [k] that no prototype defines ([exp], [detail],
    [access_token]): [None] is the [TypeError] of reading [null] or
    [undefined]. *)
Definition get (v : value) (k : string) : option value :=
  match v with
  | Undefined | Null => None
  | Obj props => Some (default Undefined (own_prop props k))
  | Bool _ | Number _ | Str _ | Arr _ => Some Undefined
  end.

(** *** [JSON.parse] *)

(** What a parser yields: a result and the rest of the text, a
    [SyntaxError], or [Outside] where the model stops (an escape above
    U+00FF, which [string] cannot hold, or exhausted fuel). *)
Inductive parse (A : Type) :=
| Parsed (a : A) (rest : string)
| Syntax_error
| Outside.
Arguments Parsed {A} a rest.
Arguments Syntax_error {A}.
Arguments Outside {A}.

Definition parse_bind {A B} (p : parse A) (k : A -> string -> parse B) : parse B :=
  match p with
  | Parsed a rest => k a rest
  | Syntax_error => Syntax_error
  | Outside => Outside
  end.

(** JSON white space: tab, line feed, carriage return, space. *)
Definition is_json_ws (c : ascii) : bool :=
  let n := N_of_ascii c in
  (n =? 9)%N || (n =? 10)%N || (n =? 13)%N || (n =? 32)%N.

Fixpoint skip_ws (s : string) : string :=
  match s with
  | String c r => if is_json_ws c then skip_ws r else s
  | EmptyString => s
  end.

(** The quotation mark, U+0022. *)
Definition dquote : ascii := ascii_of_N 34.

Definition hex_digit (c : ascii) : option N :=
  let n := N_of_ascii c in
  if is_digit c then Some (n - 48)%N
  else if (97 <=? n)%N && (n <=? 102)%N then Some (n - 87)%N
  else if (65 <=? n)%N && (n <=? 70)%N then Some (n - 55)%N
  else None.

Definition hex4 (a b c d : ascii) : option N :=
  x1 ← hex_digit a; x2 ← hex_digit b; x3 ← hex_digit c; x4 ← hex_digit d;
  Some (((x1 * 16 + x2) * 16 + x3) * 16 + x4)%N.

(** The characters of a string literal after its opening quote. *)
Fixpoint parse_chars (s : string) : parse string :=
  match s with
  | EmptyString => Syntax_error
  | String c r =>
      if Ascii.eqb c dquote then Parsed "" r
      else if Ascii.eqb c "\" then
        match r with
        | String e r' =>
            let lit (x : ascii) :=
              parse_bind (parse_chars r') (fun t rest => Parsed (String x t) rest) in
            if Ascii.eqb e dquote then lit dquote
            else if Ascii.eqb e "\" then lit "\"%char
            else if Ascii.eqb e "/" then lit "/"%char
            else if Ascii.eqb e "b" then lit (ascii_of_N 8)
            else if Ascii.eqb e "f" then lit (ascii_of_N 12)
            else if Ascii.eqb e "n" then lit (ascii_of_N 10)
            else if Ascii.eqb e "r" then lit (ascii_of_N 13)
            else if Ascii.eqb e "t" then lit (ascii_of_N 9)
            else if Ascii.eqb e "u" then
              match r' with
              | String h1 (String h2 (String h3 (String h4 r''))) =>
                  match hex4 h1 h2 h3 h4 with
                  | Some n =>
                      if (n <? 256)%N then
                        parse_bind (parse_chars r'')
                          (fun t rest => Parsed (String (ascii_of_N n) t) rest)
                      else Outside
                  | None => Syntax_error
                  end
              | _ => Syntax_error
              end
            else Syntax_error
        | EmptyString => Syntax_error
        end
      else if (N_of_ascii c <? 32)%N then Syntax_error
      else parse_bind (parse_chars r) (fun t rest => Parsed (String c t) rest)
  end.

(** The longest run of digits at the head of [s], and what follows. *)
Fixpoint span_digits (s : string) : string * string :=
  match s with
  | String c r =>
      if is_digit c then let (d, rest) := span_digits r in (String c d, rest)
      else ("", s)
  | EmptyString => ("", "")
  end.

Fixpoint digits_value (acc : Z) (d : string) : Z :=
  match d with
  | String c r => digits_value (acc * 10 + Z.of_N (N_of_ascii c - 48)) r
  | EmptyString => acc
  end.

(** [-? int frac? exp?], where [int] is [0] or starts with [1-9]. *)
Definition parse_number (s : string) : parse number :=
  let (neg, s1) :=
    match s with String "-" r => (true, r) | _ => (false, s) end in
  let (ip, s2) := span_digits s1 in
  match ip with
  | EmptyString => Syntax_error
  | String "0" (String _ _) => Syntax_error
  | _ =>
      let frac :=
        match s2 with
        | String "." r =>
            let (fp, s3) := span_digits r in
            match fp with
            | EmptyString => Syntax_error
            | _ => Parsed fp s3
            end
        | _ => Parsed "" s2
        end in
      parse_bind frac (fun fp s3 =>
        let expo :=
          match s3 with
          | String c r =>
              if Ascii.eqb c "e" || Ascii.eqb c "E" then
                let (eneg, r1) :=
                  match r with
                  | String "-" r' => (true, r')
                  | String "+" r' => (false, r')
                  | _ => (false, r)
                  end in
                let (ep, s4) := span_digits r1 in
                match ep with
                | EmptyString => Syntax_error
                | _ => Parsed (if eneg then - digits_value 0 ep
                               else digits_value 0 ep)%Z s4
                end
              else Parsed 0%Z s3
          | EmptyString => Parsed 0%Z s3
          end in
        parse_bind expo (fun e s4 =>
          let m := digits_value 0 (ip +:+ fp) in
          Parsed (Dec (if neg then - m else m) (e - Z.of_nat (String.length fp))) s4))
  end.

Definition drop_prefix (p s : string) : string :=
  String.substring (String.length p) (String.length s - String.length p) s.

(** One step of the grammar for values, with the parsers for the members
    of an object and the elements of an array as arguments. *)
Definition value_step
    (members : string -> parse (list (string * value)))
    (elements : string -> parse (list value)) (s : string) : parse value :=
  match skip_ws s with
  | EmptyString => Syntax_error
  | String c r =>
      if Ascii.eqb c "{" then
        match skip_ws r with
        | String "}" r' => Parsed (Obj []) r'
        | _ => parse_bind (members r) (fun ps rest => Parsed (Obj ps) rest)
        end
      else if Ascii.eqb c "[" then
        match skip_ws r with
        | String "]" r' => Parsed (Arr []) r'
        | _ => parse_bind (elements r) (fun vs rest => Parsed (Arr vs) rest)
        end
      else if Ascii.eqb c dquote then
        parse_bind (parse_chars r) (fun t rest => Parsed (Str t) rest)
      else if Ascii.eqb c "-" || is_digit c then
        parse_bind (parse_number (String c r)) (fun n rest => Parsed (Number n) rest)
      else if startsWith (String c r) "null" then
        Parsed Null (drop_prefix "null" (String c r))
      else if startsWith (String c r) "true" then
        Parsed (Bool true) (drop_prefix "true" (String c r))
      else if startsWith (String c r) "false" then
        Parsed (Bool false) (drop_prefix "false" (String c r))
      else Syntax_error
  end.

(** The elements of an array after [[]: a value, then [,] and more
    elements, or the closing []]. *)
Definition elements_step
    (value_ : string -> parse value)
    (elements : string -> parse (list value)) (s : string) : parse (list value) :=
  parse_bind (value_ s) (fun v r =>
    match skip_ws r with
    | String "," r' =>
        parse_bind (elements r') (fun vs rest => Parsed (v :: vs) rest)
    | String "]" r' => Parsed [v] r'
    | _ => Syntax_error
    end).

(** The members of an object after [{]: a string, [:], a value, then [,]
    and more members, or the closing [}]. *)
Definition members_step
    (value_ : string -> parse value)
    (members : string -> parse (list (string * value))) (s : string)
    : parse (list (string * value)) :=
  match skip_ws s with
  | String c r =>
      if Ascii.eqb c dquote then
        parse_bind (parse_chars r) (fun k r1 =>
          match skip_ws r1 with
          | String ":" r2 =>
              parse_bind (value_ r2) (fun v r3 =>
                match skip_ws r3 with
                | String "," r4 =>
                    parse_bind (members r4)
                      (fun ps rest => Parsed ((k, v) :: ps) rest)
                | String "}" r4 => Parsed [(k, v)] r4
                | _ => Syntax_error
                end)
          | _ => Syntax_error
          end)
      else Syntax_error
  | EmptyString => Syntax_error
  end.

(** The three parsers, tied by fuel: every nested call uses one unit. *)
Fixpoint parse_value (fuel : nat) (s : string) : parse value :=
  match fuel with
  | O => Outside
  | S fuel => value_step (parse_members fuel) (parse_elements fuel) s
  end
with parse_elements (fuel : nat) (s : string) : parse (list value) :=
  match fuel with
  | O => Outside
  | S fuel => elements_step (parse_value fuel) (parse_elements fuel) s
  end
with parse_members (fuel : nat) (s : string) : parse (list (string * value)) :=
  match fuel with
  | O => Outside
  | S fuel => members_step (parse_value fuel) (parse_members fuel) s
  end.

(** The fuel [JSON.parse] starts with: every nested call comes after at
    most one call that reads no character. *)
Definition JSON_fuel (text : string) : nat := 2 * String.length text + 3.

(** The three results of [JSON.parse(text)]. *)
Inductive parsed :=
| Json (v : value)
| SyntaxError
| Unmodelled.

Definition JSON_parse (text : string) : parsed :=
  match parse_value (JSON_fuel text) text with
  | Parsed v rest =>
      match skip_ws rest with
      | EmptyString => Json v
      | String _ _ => SyntaxError
      end
  | Syntax_error => SyntaxError
  | Outside => Unmodelled
  end.

(** *** [atob]: forgiving base64 decoding *)

(** ASCII white space: tab, line feed, form feed, carriage return, space. *)
Definition is_ascii_ws (c : ascii) : bool :=
  let n := N_of_ascii c in
  (n =? 9)%N || (n =? 10)%N || (n =? 12)%N || (n =? 13)%N || (n =? 32)%N.

Fixpoint remove_ws (s : string) : string :=
  match s with
  | String c r => if is_ascii_ws c then remove_ws r else String c (remove_ws r)
  | EmptyString => EmptyString
  end.

(** The position of [c] in the base64 alphabet [A-Za-z0-9+/]. *)
Definition base64_index (c : ascii) : option N :=
  let n := N_of_ascii c in
  if is_upper c then Some (n - 65)%N
  else if is_lower c then Some (n - 71)%N
  else if is_digit c then Some (n + 4)%N
  else if (n =? 43)%N then Some 62%N
  else if (n =? 47)%N then Some 63%N
  else None.

(** [s] without its last character when that is [=]. *)
Fixpoint drop_last_eq (s : string) : string :=
  match s with
  | EmptyString => EmptyString
  | String c EmptyString => if Ascii.eqb c "=" then EmptyString else s
  | String c r => String c (drop_last_eq r)
  end.

Fixpoint base64_indices (s : string) : option (list N) :=
  match s with
  | EmptyString => Some []
  | String c r =>
      match base64_index c, base64_indices r with
      | Some i, Some l => Some (i :: l)
      | _, _ => None
      end
  end.

(** Four sextets give three bytes; a rest of three gives two (the low two
    bits dropped), a rest of two gives one (the low four bits dropped). *)
Fixpoint base64_bytes (l : list N) : string :=
  match l with
  | a :: b :: c :: d :: l' =>
      let n := (((a * 64 + b) * 64 + c) * 64 + d)%N in
      String (ascii_of_N (n / 65536))
        (String (ascii_of_N ((n / 256) mod 256))
           (String (ascii_of_N (n mod 256)) (base64_bytes l')))
  | [a; b; c] =>
      let n := (((a * 64 + b) * 64 + c) / 4)%N in
      String (ascii_of_N (n / 256)) (String (ascii_of_N (n mod 256)) EmptyString)
  | [a; b] =>
      String (ascii_of_N ((a * 64 + b) / 16)) EmptyString
  | _ => EmptyString
  end.

(** [atob(data)]: [None] is the [InvalidCharacterError]. *)
Definition atob (data : string) : option string :=
  let d := remove_ws data in
  let d :=
    if (String.length d mod 4 =? 0)%nat then drop_last_eq (drop_last_eq d)
    else d in
  if (String.length d mod 4 =? 1)%nat then None
  else base64_bytes <$> base64_indices d.

End Js.

(** ** EdgeGuard: the route protection middleware *)

Module Middleware.

Definition TOKEN_KEY : string := "inopsio_token".

Definition PROTECTED_PATTERNS : list string := ["/dashboard"; "/admin"].

Definition AUTH_ROUTES : list string := ["/signin"; "/signup"; "/login"].

(** The request as the middleware sees it: [request.url] (kept as its
    origin), [request.nextUrl.pathname] and [request.cookies]. *)
Record NextRequest := {
  origin : string;
  pathname : string;
  cookies : gmap string string
}.

(** A [URL] object: origin, path and the [searchParams] list. *)
Record URL := {
  url_origin : string;
  url_pathname : string;
  url_searchParams : list (string * string)
}.

Inductive NextResponse :=
| redirect (u : URL)
| next.

(** [new URL(path, request.url)] for an absolute [path]. *)
Definition new_URL (path : string) (req : NextRequest) : URL :=
  {| url_origin := origin req; url_pathname := path; url_searchParams := [] |}.

(** [URLSearchParams.set]: the first pair named [k] takes the value, later
    pairs named [k] go, a missing name is appended. *)
Fixpoint searchParams_drop (k : string) (ps : list (string * string)) :=
  match ps with
  | [] => []
  | (k', v') :: ps' =>
      if String.eqb k' k then searchParams_drop k ps'
      else (k', v') :: searchParams_drop k ps'
  end.

Fixpoint searchParams_set (k v : string) (ps : list (string * string)) :=
  match ps with
  | [] => [(k, v)]
  | (k', v') :: ps' =>
      if String.eqb k' k then (k, v) :: searchParams_drop k ps'
      else (k', v') :: searchParams_set k v ps'
  end.

Definition set_param (k v : string) (u : URL) : URL :=
  {| url_origin := url_origin u; url_pathname := url_pathname u;
     url_searchParams := searchParams_set k v (url_searchParams u) |}.

(** [pathname.match(/^\/([a-z]{2})\//)], returning capture group 1. *)
Definition localeMatch (pathname : string) : option string :=
  match pathname with
  | String "/" (String c1 (String c2 (String "/" _))) =>
      if Js.is_lower c1 && Js.is_lower c2
      then Some (String c1 (String c2 EmptyString))
      else None
  | _ => None
  end.

Definition locale (pathname : string) : string :=
  match localeMatch pathname with
  | Some l => l
  | None => "en"
  end.

Definition isProtectedRoute (pathname : string) : bool :=
  existsb (fun pattern => Js.includes pathname pattern) PROTECTED_PATTERNS.

Definition isAuthRoute (pathname : string) : bool :=
  existsb (fun route => Js.includes pathname route) AUTH_ROUTES.

Definition middleware (request : NextRequest) : NextResponse :=
  let pathname := pathname request in
  let token := cookies request !! TOKEN_KEY in
  let locale := locale pathname in
  if isProtectedRoute pathname && negb (Js.truthy token) then
    let signinUrl := new_URL ("/" +:+ locale +:+ "/signin") request in
    redirect (set_param "callbackUrl" pathname signinUrl)
  else if isAuthRoute pathname && Js.truthy token then
    redirect (new_URL ("/" +:+ locale +:+ "/dashboard") request)
  else next.

End Middleware.

(** ** The API client: [frontend/src/lib/api.ts] *)

Module Api.
Import Js.

Definition TOKEN_KEY : string := "inopsio_token".

(** The browser as the client code touches it: [localStorage], the strings
    assigned to [document.cookie] (latest first) and [window.location.href]. *)
Record Browser := {
  localStorage : gmap string string;
  document_cookie : list string;
  location_href : string
}.

(** [window]: [None] where [typeof window === "undefined"] (on the server). *)
Definition Window := option Browser.

Definition getToken (w : Window) : option string :=
  match w with
  | None => None
  | Some b => localStorage b !! TOKEN_KEY
  end.

Definition setToken (token : string) (w : Window) : Window :=
  match w with
  | None => None
  | Some b =>
      Some {| localStorage := <[TOKEN_KEY := token]> (localStorage b);
              document_cookie :=
                (TOKEN_KEY +:+ "=" +:+ token +:+ "; path=/; max-age="
                   +:+ of_Z (60 * 60 * 24 * 7) +:+ "; SameSite=Lax")
                :: document_cookie b;
              location_href := location_href b |}
  end.

Definition clearToken (w : Window) : Window :=
  match w with
  | None => None
  | Some b =>
      Some {| localStorage := delete TOKEN_KEY (localStorage b);
              document_cookie :=
                (TOKEN_KEY +:+ "=; path=/; max-age=0") :: document_cookie b;
              location_href := location_href b |}
  end.

(** [class ApiError extends Error]; [detail] keeps [errorData.detail] as it
    was read. *)
Record ApiError := {
  message : string;
  status : Z;
  detail : value;
  requestId : string
}.

Inductive exn :=
| ApiError_ (e : ApiError)
| Error_ (message : string)
| TypeError_
| SyntaxError_.

(** How a call ends: with a value, with an exception, or outside the
    model (see [ToString], [ToNumber], [JSON_parse]). *)
Inductive completion (A : Type) :=
| Return (a : A)
| Throw (e : exn)
| Beyond.
Arguments Return {A} a.
Arguments Throw {A} e.
Arguments Beyond {A}.

(** *** [fetch]: requests and responses *)

Inductive Body :=
| body_text (s : string)
| body_form (fields : list (string * string)).

Record RequestInit := {
  init_method : option string;
  init_headers : list (string * string);
  init_body : option Body
}.

(** *** [Headers] *)

(** HTTP whitespace: tab, line feed, carriage return and space. *)
Definition is_http_whitespace (c : ascii) : bool :=
  let n := N_of_ascii c in
  (n =? 9)%N || (n =? 10)%N || (n =? 13)%N || (n =? 32)%N.

Fixpoint strip_leading (s : string) : string :=
  match s with
  | EmptyString => EmptyString
  | String c r => if is_http_whitespace c then strip_leading r else s
  end.

Fixpoint strip_trailing (s : string) : string :=
  match s with
  | EmptyString => EmptyString
  | String c r =>
      match strip_trailing r with
      | EmptyString => if is_http_whitespace c then EmptyString else String c EmptyString
      | String _ _ as r' => String c r'
      end
  end.

(** A value is normalized before it is stored: leading and trailing HTTP
    whitespace is removed. *)
Definition normalize (v : string) : string := strip_trailing (strip_leading v).

Fixpoint all_chars (p : ascii -> bool) (s : string) : bool :=
  match s with
  | EmptyString => true
  | String c r => p c && all_chars p r
  end.

(** The characters of a header name: letters, digits and the marks of an
    HTTP token. *)
Definition is_token_char (c : ascii) : bool :=
  is_digit c || is_upper c || is_lower c
  || existsb (Ascii.eqb c) (list_ascii_of_string "!#$%&'*+-.^_`|~").

Definition is_header_name (name : string) : bool :=
  negb (String.eqb name "") && all_chars is_token_char name.

(** A normalized value is a header value when it holds no NUL, line feed
    or carriage return. (A code point above U+00FF, which the platform
    rejects as well, is none that [string] can hold.) *)
Definition is_header_value (v : string) : bool :=
  all_chars (fun c => let n := N_of_ascii c in
                      negb ((n =? 0)%N || (n =? 10)%N || (n =? 13)%N)) v.

(** A [Headers] object: the values under the names in lower case. Where a
    method throws its [TypeError] (a name or a value that is not valid),
    the result is [None]. *)
Definition headers_set (name v : string) (h : gmap string string)
    : option (gmap string string) :=
  let v := normalize v in
  if is_header_name name && is_header_value v
  then Some (<[to_lower name := v]> h)
  else None.

Definition headers_append (h : gmap string string) (p : string * string)
    : option (gmap string string) :=
  let v := normalize (snd p) in
  if is_header_name (fst p) && is_header_value v then
    match h !! to_lower (fst p) with
    | Some old => Some (<[to_lower (fst p) := old +:+ ", " +:+ v]> h)
    | None => Some (<[to_lower (fst p) := v]> h)
    end
  else None.

(** [new Headers(init)]: the entries of [init] are appended in order. *)
Definition new_Headers (init : list (string * string)) : option (gmap string string) :=
  fold_left (fun acc p => h ← acc; headers_append h p) init (Some ∅).

(** [headers.get(name)] for a valid [name] (the sources pass literals). *)
Definition headers_get (name : string) (h : gmap string string) : option string :=
  h !! to_lower name.

Record Request := {
  req_url : string;
  req_method : option string;
  req_headers : gmap string string;
  req_body : option Body;
  req_credentials : string
}.

(** A response: its status, its headers and what [response.json()]
    resolves to ([None] when the body is not JSON and the promise rejects). *)
Record Response := {
  resp_status : Z;
  resp_headers : gmap string string;
  resp_json : option value
}.

(** [response.ok]: a status from 200 to 299. *)
Definition ok (r : Response) : bool :=
  (200 <=? resp_status r)%Z && (resp_status r <=? 299)%Z.

(** [fetch]: [None] is a rejected promise (no response arrived). *)
Definition Fetch := Request -> option Response.

Section Client.

(** [env.NEXT_PUBLIC_API_URL] *)
Variable NEXT_PUBLIC_API_URL : string.

(** [x || fallback] followed by the [ToString] of [new Error(message)];
    [Inexact] also where the truth value of [x] is not computed. *)
Definition or_message (x : value) (fallback : string) : conversion string :=
  match ToBoolean x with
  | Some true => ToString x
  | Some false => Converted fallback
  | None => Inexact
  end.

(** What [apiFetch] does before it calls [fetch]: it builds the headers
    from the caller's options, the JSON content type, the bearer token
    when there is one and a fresh request id. [randomUUID] is what
    [crypto.randomUUID()] returns, [None] where the call throws because
    the function is not there (outside a secure context). The result is
    the request id with the request, or [None] when a [TypeError] was
    thrown on the way and [fetch] is never called. *)
Definition apiFetch_request (w : Window) (randomUUID : option string)
    (endpoint : string) (options : RequestInit) : option (string * Request) :=
  let token := getToken w in
  headers ← new_Headers (init_headers options);
  headers ← headers_set "Content-Type" "application/json" headers;
  headers ← (if truthy token
             then headers_set "Authorization" ("Bearer " +:+ default "" token) headers
             else Some headers);
  requestId ← randomUUID;
  headers ← headers_set "X-Request-ID" requestId headers;
  Some (requestId,
        {| req_url := NEXT_PUBLIC_API_URL +:+ endpoint;
           req_method := init_method options;
           req_headers := headers;
           req_body := init_body options;
           req_credentials := "include" |}).

(** What [apiFetch] does with the response. *)
Definition apiFetch_response (requestId : string) (response : Response)
    : completion value :=
  let responseRequestId :=
    let h := headers_get "X-Request-ID" (resp_headers response) in
    if truthy h then default "" h else requestId in
  if negb (ok response) then
    let errorData := default (Obj []) (resp_json response) in
    match get errorData "detail" with
    | None => Throw TypeError_
    | Some d =>
        match or_message d
                ("Request failed with status " +:+ of_Z (resp_status response)) with
        | Converted m =>
            Throw (ApiError_ {| message := m;
                                status := resp_status response;
                                detail := d;
                                requestId := responseRequestId |})
        | Type_error => Throw TypeError_
        | Inexact => Beyond
        end
    end
  else if (resp_status response =? 204)%Z then Return (Obj [])
  else
    match resp_json response with
    | Some v => Return v
    | None => Throw SyntaxError_
    end.

(** [apiFetch(endpoint, options)] *)
Definition apiFetch (w : Window) (randomUUID : option string) (fetch : Fetch)
    (endpoint : string) (options : RequestInit) : completion value :=
  match apiFetch_request w randomUUID endpoint options with
  | None => Throw TypeError_
  | Some (requestId, request) =>
      match fetch request with
      | None => Throw TypeError_
      | Some response => apiFetch_response requestId response
      end
  end.

End Client.

(** *** The typed client [api] *)

Section Wrappers.

Variable NEXT_PUBLIC_API_URL : string.

(** [JSON.stringify], taken as it is given by the platform: [None] is the
    result [undefined]. *)
Variable JSON_stringify : value -> option string.

(** The options literal [{ method, body }]. *)
Definition request_init (method : string) (body : option string) : RequestInit :=
  {| init_method := Some method; init_headers := [];
     init_body := body_text <$> body |}.

(** The options of [api.post(url, data)]: [data ? JSON.stringify(data) :
    undefined] as the body; an omitted [data] is [undefined]. *)
Definition api_post_init (data : value) : option RequestInit :=
  b ← ToBoolean data;
  Some (request_init "POST" (if b : bool then JSON_stringify data else None)).

Definition api_put_init (data : value) : RequestInit :=
  request_init "PUT" (JSON_stringify data).

Definition api_patch_init (data : value) : RequestInit :=
  request_init "PATCH" (JSON_stringify data).

Definition api_get (w : Window) (randomUUID : option string) (fetch : Fetch)
    (url : string) : completion value :=
  apiFetch NEXT_PUBLIC_API_URL w randomUUID fetch url (request_init "GET" None).

Definition api_post (w : Window) (randomUUID : option string) (fetch : Fetch)
    (url : string) (data : value) : completion value :=
  match api_post_init data with
  | Some init => apiFetch NEXT_PUBLIC_API_URL w randomUUID fetch url init
  | None => Beyond
  end.

Definition api_put (w : Window) (randomUUID : option string) (fetch : Fetch)
    (url : string) (data : value) : completion value :=
  apiFetch NEXT_PUBLIC_API_URL w randomUUID fetch url (api_put_init data).

Definition api_patch (w : Window) (randomUUID : option string) (fetch : Fetch)
    (url : string) (data : value) : completion value :=
  apiFetch NEXT_PUBLIC_API_URL w randomUUID fetch url (api_patch_init data).

Definition api_delete (w : Window) (randomUUID : option string) (fetch : Fetch)
    (url : string) : completion value :=
  apiFetch NEXT_PUBLIC_API_URL w randomUUID fetch url (request_init "DELETE" None).

End Wrappers.

End Api.

(** ** The auth service *)

Module Auth.
Import Js Api.

Definition API_PREFIX : string := "/api/v1".

Section Service.

Variable NEXT_PUBLIC_API_URL : string.

(** [setToken(tok)] for a [tok] read from JSON: past the window guard it is
    converted to a string, by [localStorage.setItem] first. *)
Definition setToken_of (tok : value) (w : Window) : conversion Window :=
  match w with
  | None => Converted None
  | Some _ =>
      match ToString tok with
      | Converted t => Converted (setToken t w)
      | Type_error => Type_error
      | Inexact => Inexact
      end
  end.

(** The [headers] literal of [login] as [fetch] reads it into the request
    (it is a valid header, so it is always read). *)
Definition login_headers : gmap string string :=
  default ∅ (new_Headers [("Content-Type", "application/x-www-form-urlencoded")]).

(** The request [login] sends: the credentials as form fields. *)
Definition login_request (email password : string) : Request :=
  let formData := [("username", email); ("password", password)] in
  {| req_url := NEXT_PUBLIC_API_URL +:+ API_PREFIX +:+ "/auth/login";
     req_method := Some "POST";
     req_headers := login_headers;
     req_body := Some (body_form formData);
     req_credentials := "include" |}.

(** [login(email, password)]: the window afterwards and how the call ends. *)
Definition login (w : Window) (fetch : Fetch) (email password : string)
    : Window * completion value :=
  match fetch (login_request email password) with
  | None => (w, Throw TypeError_)
  | Some response =>
      if negb (ok response) then
        let error := default (Obj []) (resp_json response) in
        match get error "detail" with
        | None => (w, Throw TypeError_)
        | Some d =>
            match or_message d "Login failed" with
            | Converted m => (w, Throw (Error_ m))
            | Type_error => (w, Throw TypeError_)
            | Inexact => (w, Beyond)
            end
        end
      else
        match resp_json response with
        | None => (w, Throw SyntaxError_)
        | Some data =>
            match get data "access_token" with
            | None => (w, Throw TypeError_)
            | Some tok =>
                match setToken_of tok w with
                | Converted w' => (w', Return data)
                | Type_error => (w, Throw TypeError_)
                | Inexact => (w, Beyond)
                end
            end
        end
  end.

End Service.

(** [getCurrentUser()] *)
Definition getCurrentUser (NEXT_PUBLIC_API_URL : string) (w : Window)
    (randomUUID : option string) (fetch : Fetch) : completion value :=
  api_get NEXT_PUBLIC_API_URL w randomUUID fetch (API_PREFIX +:+ "/auth/test-token").

(** [logout(redirectTo)] *)
Definition logout (redirectTo : string) (w : Window) : Window :=
  match clearToken w with
  | None => None
  | Some b =>
      Some {| localStorage := localStorage b;
              document_cookie := document_cookie b;
              location_href := redirectTo |}
  end.

Definition isAuthenticated (w : Window) : bool := truthy (getToken w).

(** [decodeToken(token)]: every exception of [atob] and [JSON.parse] is
    caught and gives [null]. *)
Definition decodeToken (token : string) : completion value :=
  let base64Payload := split_on "." token !! 1%nat in
  match atob (default "undefined" base64Payload) with
  | None => Return Null
  | Some payload =>
      match JSON_parse payload with
      | Json v => Return v
      | SyntaxError => Return Null
      | Unmodelled => Beyond
      end
  end.

(** [isTokenExpired(token)] at [Date.now() = now] (milliseconds). *)
Definition isTokenExpired (now : Z) (token : string) : completion bool :=
  match decodeToken token with
  | Return payload =>
      match ToBoolean payload with
      | Some false => Return true
      | Some true =>
          match get payload "exp" with
          | None => Throw TypeError_
          | Some e =>
              match ToNumber e with
              | Converted x =>
                  match y ← num_mul x 1000; num_sub y 60000 with
                  | Some z => Return (ge_num now z)
                  | None => Beyond
                  end
              | Type_error => Throw TypeError_
              | Inexact => Beyond
              end
          end
      | None => Beyond
      end
  | Throw e => Throw e
  | Beyond => Beyond
  end.

End Auth.

(** ** The tenant scoped store of the design *)

Module TenantScopedStore.

(** Modelled from the spec: the entity-shape capability of the generic
    tenant-scoping base (the reserved [app/crud/base.py], which the sources
    leave empty); an entity has an id and carries exactly one organization
    id. *)
Class TenantOwned (E : Type) := {
  entity_id : E -> string;
  organization_id : E -> string
}.

(** Modelled from the spec: the failure taxonomy of the core; there is no
    [Forbidden] kind. *)
Inductive Failure :=
| InvalidCredentials
| InvalidToken
| ExpiredToken
| Unauthenticated
| Unauthorized (capability : string)
| NotAMember
| NotFound
| ValidationError.

(** Modelled from the spec: an operation ends in success or in one typed
    failure. *)
Inductive result (E : Type) :=
| Found (e : E)
| Failed (f : Failure).
Arguments Found {E} e.
Arguments Failed {E} f.

(** Modelled from the spec: a paginated list response
    [{items, total, skip, limit}]. *)
Record Page (E : Type) := {
  items : list E;
  total : nat;
  page_skip : nat;
  page_limit : nat
}.
Arguments items {E} _.
Arguments total {E} _.
Arguments page_skip {E} _.
Arguments page_limit {E} _.

Section Store.

Context {E : Type} `{TenantOwned E}.

(** Modelled from the spec: on read and list the organization id is ANDed
    with the caller's filter. *)
Definition scoped (org : string) (f : E -> bool) (e : E) : bool :=
  String.eqb (organization_id e) org && f e.

(** Modelled from the spec: [list(entityType, organizationId, filter, skip,
    limit)] over the rows of one entity type; [total] is counted under the
    same scoped filter, [skip] and [limit] are echoed. *)
Definition list_scoped (rows : list E) (org : string) (f : E -> bool)
    (skip limit : nat) : Page E :=
  let matching := List.filter (scoped org f) rows in
  {| items := take limit (drop skip matching);
     total := List.length matching;
     page_skip := skip;
     page_limit := limit |}.

(** Modelled from the spec: [get(entityType, organizationId, id)]; an id
    that is not found under the organization constraint is [NotFound]. *)
Definition get (rows : list E) (org : string) (id : string) : result E :=
  match List.find (scoped org (fun e => String.eqb (entity_id e) id)) rows with
  | Some e => Found e
  | None => Failed NotFound
  end.

End Store.

(** One entity type to run the store on: a row with id, organization and
    a name. *)
Record Resource := {
  resource_id : string;
  resource_org : string;
  resource_name : string
}.

#[export] Instance Resource_owned : TenantOwned Resource :=
  {| entity_id := resource_id; organization_id := resource_org |}.

End TenantScopedStore.

(** ** What the specification says, as predicates *)

Module Spec.
Import Middleware.
Local Open Scope Z_scope.

(** A parse that ran out of fuel says nothing; any other result stands. *)
Definition refines {A : Type} (p q : Js.parse A) : Prop :=
  p = Js.Outside \/ p = q.

(** [p] occurs somewhere in [s]. *)
Definition contains (s p : string) : Prop :=
  exists a b, s = a +:+ p +:+ b.

Definition protected_path (path : string) : Prop :=
  contains path "/dashboard" \/ contains path "/admin".

Definition auth_entry_path (path : string) : Prop :=
  contains path "/signin" \/ contains path "/signup" \/ contains path "/login".

(** A credential is present: the token cookie exists and is not empty. *)
Definition credential_present (req : NextRequest) : Prop :=
  exists v, cookies req !! TOKEN_KEY = Some v /\ v <> "".

Definition lowercase (c : ascii) : Prop :=
  (97 <= N_of_ascii c <= 122)%N.

(** The path starts with the locale segment [c1 c2]: two letters of
    [a-z] between slashes. *)
Definition has_locale (path : string) (c1 c2 : ascii) : Prop :=
  lowercase c1 /\ lowercase c2 /\
  exists rest, path = String "/" (String c1 (String c2 (String "/" rest))).

Definition signin_url (req : NextRequest) (loc : string) : URL :=
  {| url_origin := origin req;
     url_pathname := "/" +:+ loc +:+ "/signin";
     url_searchParams := [("callbackUrl", pathname req)] |}.

Definition dashboard_url (req : NextRequest) (loc : string) : URL :=
  {| url_origin := origin req;
     url_pathname := "/" +:+ loc +:+ "/dashboard";
     url_searchParams := [] |}.

(** A letter of either case. *)
Definition letter (c : ascii) : Prop :=
  lowercase c \/ (65 <= N_of_ascii c <= 90)%N.

(** The locale rule as the specification words it: a leading segment of
    two letters is kept in the target of every redirect. *)
Definition two_letter_segment_kept : Prop :=
  forall (req : NextRequest) (u : URL) (c1 c2 : ascii) (rest : string),
    middleware req = redirect u ->
    letter c1 -> letter c2 ->
    pathname req = String "/" (String c1 (String c2 (String "/" rest))) ->
    u = signin_url req (String c1 (String c2 "")) \/
    u = dashboard_url req (String c1 (String c2 "")).



(** The second dot-separated segment of [token] is not base64-encoded
    JSON: there is no dot at all, or [atob] rejects the segment, or
    [JSON.parse] rejects what [atob] gives. *)
Definition malformed (token : string) : Prop :=
  ~ contains token "." \/
  exists seg,
    Js.split_on "." token !! 1%nat = Some seg /\
    (Js.atob seg = None \/
     exists text, Js.atob seg = Some text /\ Js.JSON_parse text = Js.SyntaxError).

(** The [detail] of the body of a response: [undefined] when the body is
    not a JSON object or has no such member. *)
Definition body_detail (r : Api.Response) : Js.value :=
  match Api.resp_json r with
  | Some (Js.Obj props) => default Js.Undefined (Js.own_prop props "detail")
  | _ => Js.Undefined
  end.

(** The body, when it is JSON, is a value with members to read: not
    [null] (nor [undefined], which no JSON text denotes). *)
Definition readable_body (r : Api.Response) : Prop :=
  Api.resp_json r <> Some Js.Null /\ Api.resp_json r <> Some Js.Undefined.

Definition fallback_message (r : Api.Response) : string :=
  "Request failed with status " +:+ Js.of_Z (Api.resp_status r).

(** The message the specification expects on an error response. *)
Definition expected_message (r : Api.Response) : string :=
  match body_detail r with
  | Js.Str d => d
  | _ => fallback_message r
  end.

(** [apiFetch] as the specification words it: an error response always
    gives an [ApiError] with the status and the detail, an ok response
    always gives the parsed body ([{}] for 204) and no error. *)
Definition apiFetch_as_specified : Prop :=
  forall url w randomUUID (fetch : Api.Fetch) endpoint options rid request response,
    Api.apiFetch_request url w randomUUID endpoint options = Some (rid, request) ->
    fetch request = Some response ->
    (Api.ok response = false ->
     exists e, Api.apiFetch url w randomUUID fetch endpoint options
               = Api.Throw (Api.ApiError_ e) /\
               Api.status e = Api.resp_status response /\
               Api.message e = expected_message response) /\
    (Api.ok response = true ->
     exists v, Api.apiFetch url w randomUUID fetch endpoint options = Api.Return v /\
               (Api.resp_status response = 204 -> v = Js.Obj []) /\
               (Api.resp_status response <> 204 -> Api.resp_json response = Some v)).

(** [run] calls [fetch] with [request] and ends as [apiFetch] ends on the
    answer: with the [TypeError] of a rejected [fetch], or with what it
    makes of the response under the request id [rid]. *)
Definition sends (run : Api.Fetch -> Api.completion Js.value)
    (rid : string) (request : Api.Request) : Prop :=
  forall fetch : Api.Fetch,
    run fetch = match fetch request with
                | None => Api.Throw Api.TypeError_
                | Some response => Api.apiFetch_response rid response
                end.

(** Nothing stands in the way of a request from the window [w]:
    [crypto.randomUUID] is there and returns [rid], and the request id and
    the bearer value of the stored token, if there is one, are header
    values. *)
Definition sendable (w : Api.Window) (randomUUID : option string) (rid : string)
    : Prop :=
  randomUUID = Some rid /\
  Api.is_header_value (Api.normalize rid) = true /\
  forall t, Api.getToken w = Some t -> t <> "" ->
    Api.is_header_value (Api.normalize ("Bearer " +:+ t)) = true.

(** A value without a string form: an object with a member [toString] of
    its own, or an array that holds such a value. *)
Fixpoint unconvertible (v : Js.value) : Prop :=
  match v with
  | Js.Obj props => Js.own_prop props "toString" <> None
  | Js.Arr items =>
      (fix any (l : list Js.value) : Prop :=
         match l with
         | [] => False
         | x :: r => unconvertible x \/ any r
         end) items
  | _ => False
  end.

(** The same request under another set of cookies. *)
Definition with_cookies (req : NextRequest) (c : gmap string string) : NextRequest :=
  {| origin := origin req; pathname := pathname req; cookies := c |}.

(** The request a browser makes when it follows the redirect to [u] with
    the cookies of [req]. *)
Definition follow (req : NextRequest) (u : URL) : NextRequest :=
  {| origin := url_origin u; pathname := url_pathname u; cookies := cookies req |}.

(** The character [c] occurs in [s]. *)
Fixpoint occurs (c : ascii) (s : string) : Prop :=
  match s with
  | EmptyString => False
  | String x r => x = c \/ occurs c r
  end.

(** What [localStorage] holds under [k]; nothing where there is no window. *)
Definition stored (w : Api.Window) (k : string) : option string :=
  b ← w; Api.localStorage b !! k.



End Spec.

(** ** Sample inputs *)

Module Sample.

(** A token with header [h], signature [s] and the base64 of a payload
    with [sub = u1] and [exp = 1700000000]. *)
Definition token_2023 : string := "h.eyJzdWIiOiJ1MSIsImV4cCI6MTcwMDAwMDAwMH0.s".

Definition request_without_cookie : Middleware.NextRequest :=
  {| Middleware.origin := "https://app.inopsio.test";
     Middleware.pathname := "/en/dashboard";
     Middleware.cookies := ∅ |}.

Definition request_with_token : Middleware.NextRequest :=
  {| Middleware.origin := "https://app.inopsio.test";
     Middleware.pathname := "/en/dashboard";
     Middleware.cookies := {[ "inopsio_token" := token_2023 ]} |}.

Definition request_french_admin : Middleware.NextRequest :=
  {| Middleware.origin := "https://app.inopsio.test";
     Middleware.pathname := "/fr/admin/users";
     Middleware.cookies := ∅ |}.

Definition request_blog_post : Middleware.NextRequest :=
  {| Middleware.origin := "https://app.inopsio.test";
     Middleware.pathname := "/en/blog/admin-tips";
     Middleware.cookies := {[ "theme" := "dark" ]} |}.

(** A server that answers 200 with a body that is not JSON. *)
Definition server_plain_text : Api.Fetch :=
  fun _ => Some {| Api.resp_status := 200; Api.resp_headers := ∅;
                   Api.resp_json := None |}.

(** A server that answers 404 with the detail [User not found]. *)
Definition server_not_found : Api.Fetch :=
  fun _ => Some {| Api.resp_status := 404; Api.resp_headers := ∅;
                   Api.resp_json :=
                     Some (Js.Obj [("detail", Js.Str "User not found")]) |}.

(** A server that accepts the login and issues [token_2023]. *)
Definition server_login_ok : Api.Fetch :=
  fun _ => Some {| Api.resp_status := 200; Api.resp_headers := ∅;
                   Api.resp_json :=
                     Some (Js.Obj [("access_token", Js.Str token_2023);
                                   ("token_type", Js.Str "bearer")]) |}.

Definition fresh_browser : Api.Browser :=
  {| Api.localStorage := ∅; Api.document_cookie := [];
     Api.location_href := "https://app.inopsio.test/en/signin" |}.

Definition no_options : Api.RequestInit :=
  {| Api.init_method := Some "GET"; Api.init_headers := [];
     Api.init_body := None |}.

(** Two organizations and their rows. *)
Definition rows_of_two_tenants : list TenantScopedStore.Resource :=
  [ {| TenantScopedStore.resource_id := "r1";
       TenantScopedStore.resource_org := "org-a";
       TenantScopedStore.resource_name := "alpha" |};
    {| TenantScopedStore.resource_id := "r2";
       TenantScopedStore.resource_org := "org-b";
       TenantScopedStore.resource_name := "beta" |};
    {| TenantScopedStore.resource_id := "r3";
       TenantScopedStore.resource_org := "org-a";
       TenantScopedStore.resource_name := "gamma" |} ].

(** [JSON.stringify] on [null], booleans and exact integers, where it
    prints what [ToString] prints; the samples pass it nothing else. *)
Definition stringify_primitive (v : Js.value) : option string :=
  match v with
  | Js.Null | Js.Bool _ | Js.Number _ =>
      match Js.ToString v with
      | Js.Converted text => Some text
      | _ => None
      end
  | _ => None
  end.

(** No server: every [fetch] is rejected. *)
Definition server_down : Api.Fetch := fun _ => None.

(** A server that answers 204 to everything. *)
Definition server_no_content : Api.Fetch :=
  fun _ => Some {| Api.resp_status := 204; Api.resp_headers := ∅;
                   Api.resp_json := None |}.

(** A server that answers 204 to a request without a body and 500 to one
    with a body. *)
Definition server_bodiless_only : Api.Fetch :=
  fun r =>
    match Api.req_body r with
    | None => server_no_content r
    | Some _ => Some {| Api.resp_status := 500; Api.resp_headers := ∅;
                        Api.resp_json := None |}
    end.

(** A server that answers 204 to a request that carries the bearer token
    [token_2023] and 401 to every other request. *)
Definition server_bearer_only : Api.Fetch :=
  fun r =>
    match Api.headers_get "Authorization" (Api.req_headers r) with
    | Some h =>
        if String.eqb h ("Bearer " +:+ token_2023) then server_no_content r
        else Some {| Api.resp_status := 401; Api.resp_headers := ∅;
                     Api.resp_json := None |}
    | None => Some {| Api.resp_status := 401; Api.resp_headers := ∅;
                      Api.resp_json := None |}
    end.

(** A server that answers 204 to a request declared as JSON and 415 to
    every other request. *)
Definition server_json_only : Api.Fetch :=
  fun r =>
    match Api.headers_get "Content-Type" (Api.req_headers r) with
    | Some "application/json" => server_no_content r
    | _ => Some {| Api.resp_status := 415; Api.resp_headers := ∅;
                   Api.resp_json := None |}
    end.

(** Options of a caller who asks for another content type. *)
Definition text_options : Api.RequestInit :=
  {| Api.init_method := Some "POST";
     Api.init_headers := [("content-type", "text/plain")];
     Api.init_body := Some (Api.body_text "hello") |}.

(** A server that rejects the login with a detail. *)
Definition server_login_rejected : Api.Fetch :=
  fun _ => Some {| Api.resp_status := 401; Api.resp_headers := ∅;
                   Api.resp_json :=
                     Some (Js.Obj [("detail", Js.Str "Incorrect email or password")]) |}.

(** A server that answers the login with 200 and an empty object. *)
Definition server_login_empty : Api.Fetch :=
  fun _ => Some {| Api.resp_status := 200; Api.resp_headers := ∅;
                   Api.resp_json := Some (Js.Obj []) |}.

(** A protected path that also contains an auth entry pattern. *)
Definition request_login_history : Middleware.NextRequest :=
  {| Middleware.origin := "https://app.inopsio.test";
     Middleware.pathname := "/en/admin/login-history";
     Middleware.cookies := {[ "inopsio_token" := token_2023 ]} |}.

(** A request whose token cookie is no token at all. *)
Definition request_with_garbage : Middleware.NextRequest :=
  {| Middleware.origin := "https://app.inopsio.test";
     Middleware.pathname := "/en/dashboard";
     Middleware.cookies := {[ "inopsio_token" := "garbage" ]} |}.

(** A token whose payload segment is base64url: the standard encoding of
    its payload has [/] where this one has [_]. *)
Definition token_base64url : string := "h.eyJhIjoiPz8_In0.s".

(** A token whose payload is the empty object. *)
Definition token_without_exp : string := "h.e30.s".

Definition browser_with_theme : Api.Browser :=
  {| Api.localStorage := {[ "theme" := "dark" ]}; Api.document_cookie := [];
     Api.location_href := "https://app.inopsio.test/en/dashboard" |}.

(** A protected path under an upper-case segment. *)
Definition request_upper_case : Middleware.NextRequest :=
  {| Middleware.origin := "https://app.inopsio.test";
     Middleware.pathname := "/FR/admin/users";
     Middleware.cookies := ∅ |}.

(** A token whose payload is [{"exp":{"valueOf":1,"toString":2}}], and one
    whose payload is [{"exp":{}}]. *)
Definition token_exp_object : string :=
  "h.eyJleHAiOnsidmFsdWVPZiI6MSwidG9TdHJpbmciOjJ9fQ.s".

Definition token_exp_empty_object : string := "h.eyJleHAiOnt9fQ.s".

(** A browser that holds the token [t]. *)
Definition browser_with_token (t : string) : Api.Browser :=
  {| Api.localStorage := {[ "inopsio_token" := t ]}; Api.document_cookie := [];
     Api.location_href := "https://app.inopsio.test/en/dashboard" |}.

(** A stored value with a line feed inside, and one with a space at its
    end. *)
Definition token_with_line_feed : string :=
  "a" +:+ String (ascii_of_N 10) "b".

Definition token_with_space : string := "abc ".

(** A server that answers 422 with the list of validation errors as
    [detail]. *)
Definition server_validation_error : Api.Fetch :=
  fun _ => Some {| Api.resp_status := 422; Api.resp_headers := ∅;
                   Api.resp_json :=
                     Some (Js.Obj [("detail",
                       Js.Arr [Js.Obj [("msg", Js.Str "field required")]])]) |}.

(** A server that answers 204 to a request whose [Authorization] header
    is [Bearer abc] and 401 to every other request. *)
Definition server_bearer_abc : Api.Fetch :=
  fun r =>
    match Api.headers_get "Authorization" (Api.req_headers r) with
    | Some "Bearer abc" => server_no_content r
    | _ => Some {| Api.resp_status := 401; Api.resp_headers := ∅;
                   Api.resp_json := None |}
    end.

End Sample.

(** * Properties *)

(** ** The platform functions on small inputs *)

Section PlatformExamples.
Import Js.

Example atob_payload :
  atob "eyJzdWIiOiJ1MSIsImV4cCI6MTcwMDAwMDAwMH0"
  = option_map (fun v => "{" +:+ v +:+ "}")
      (atob "InN1YiI6InUxIiwiZXhwIjoxNzAwMDAwMDAw").
Proof. reflexivity. Qed.

Example atob_undefined : atob "undefined" = None.
Proof. reflexivity. Qed.

Example atob_base64url : atob "a-b_" = None.
Proof. reflexivity. Qed.

Example atob_unpadded : atob "e30" = Some "{}" /\ atob "e30=" = Some "{}".
Proof. split; reflexivity. Qed.

Example JSON_parse_object : JSON_parse "{}" = Json (Obj []).
Proof. reflexivity. Qed.

Example JSON_parse_numbers :
  JSON_parse " [1, 2.50e3, -0, true, null] "
  = Json (Arr [Number (Dec 1 0); Number (Dec 250 1); Number (Dec 0 0);
               Bool true; Null]).
Proof. reflexivity. Qed.

Example JSON_parse_rejects :
  JSON_parse "" = SyntaxError /\ JSON_parse "[1,]" = SyntaxError /\
  JSON_parse "01" = SyntaxError /\ JSON_parse "{} x" = SyntaxError.
Proof. repeat split; reflexivity. Qed.

Example split_on_dots : split_on "." "a.b." = ["a"; "b"; ""].
Proof. reflexivity. Qed.

End PlatformExamples.

(** ** [JSON.parse]: the verdict does not depend on the fuel *)

Section JsonFuel.
Import Js Spec.

Lemma refines_refl {A : Type} (p : parse A) : refines p p.
Proof. by right. Qed.

Lemma refines_bind {A B : Type} (p q : parse A) (k k' : A -> string -> parse B) :
  refines p q ->
  (forall a rest, refines (k a rest) (k' a rest)) ->
  refines (parse_bind p k) (parse_bind q k').
Proof.
  intros [-> | ->] Hk; [by left|].
  destruct q as [a rest| |]; simpl; [apply Hk | by right | by right].
Qed.

Ltac refine_step :=
  repeat first
    [ apply refines_refl
    | apply refines_bind; [solve [auto using refines_refl] | intros ? ?]
    | case_match ].

Lemma value_step_mono members members' elements elements' (s : string) :
  (forall r, refines (members r) (members' r)) ->
  (forall r, refines (elements r) (elements' r)) ->
  refines (value_step members elements s) (value_step members' elements' s).
Proof. intros Hm He. unfold value_step. refine_step. Qed.

Lemma elements_step_mono value_ value_' elements elements' (s : string) :
  (forall r, refines (value_ r) (value_' r)) ->
  (forall r, refines (elements r) (elements' r)) ->
  refines (elements_step value_ elements s) (elements_step value_' elements' s).
Proof. intros Hv He. unfold elements_step. refine_step. Qed.

Lemma members_step_mono value_ value_' members members' (s : string) :
  (forall r, refines (value_ r) (value_' r)) ->
  (forall r, refines (members r) (members' r)) ->
  refines (members_step value_ members s) (members_step value_' members' s).
Proof. intros Hv Hm. unfold members_step. refine_step. Qed.

Lemma parse_fuel_succ (fuel : nat) :
  (forall s, refines (parse_value fuel s) (parse_value (S fuel) s)) /\
  (forall s, refines (parse_elements fuel s) (parse_elements (S fuel) s)) /\
  (forall s, refines (parse_members fuel s) (parse_members (S fuel) s)).
Proof.
  induction fuel as [|fuel (IHv & IHe & IHm)]; [by repeat split; left|].
  repeat split; intros s.
  - by apply value_step_mono.
  - by apply elements_step_mono.
  - by apply members_step_mono.
Qed.

Lemma parse_value_more_fuel (fuel extra : nat) (s : string) :
  refines (parse_value fuel s) (parse_value (fuel + extra) s).
Proof.
  induction extra as [|extra IH].
  - rewrite Nat.add_0_r. apply refines_refl.
  - rewrite Nat.add_succ_r. destruct IH as [-> | ->]; [by left|].
    apply parse_fuel_succ.
Qed.

(** Whatever [JSON_parse] decides with its fuel, it decides with more. *)
Lemma JSON_parse_fuel_independent (text : string) (extra : nat) :
  parse_value (JSON_fuel text) text <> Outside ->
  parse_value (JSON_fuel text + extra) text = parse_value (JSON_fuel text) text.
Proof.
  intros Hd. by destruct (parse_value_more_fuel (JSON_fuel text) extra text).
Qed.

End JsonFuel.

(** ** Strings *)

Section StringFacts.

Lemma startsWith_spec (p s : string) :
  Js.startsWith s p = true <-> exists r, s = p +:+ r.
Proof.
  revert s. induction p as [|a p IH]; intros s; simpl.
  - split; [intros _; exists s; reflexivity | reflexivity].
  - destruct s as [|b s]; simpl.
    + split; [discriminate | intros [r Hr]; discriminate].
    + rewrite andb_true_iff, IH. split.
      * intros [Hab [r ->]]. apply Ascii.eqb_eq in Hab as ->. by exists r.
      * intros [r Hr]. injection Hr as -> ->. split; [apply Ascii.eqb_refl | by exists r].
Qed.

Lemma includes_spec (s p : string) :
  Js.includes s p = true <-> Spec.contains s p.
Proof.
  unfold Spec.contains. split.
  - induction s as [|c s IH]; simpl; rewrite orb_true_iff.
    + intros [Hs | ?]; [|discriminate].
      apply startsWith_spec in Hs as [r Hr]. by exists "", r.
    + intros [Hs | Hi].
      * apply startsWith_spec in Hs as [r Hr]. by exists "", r.
      * destruct (IH Hi) as (a & b & ->). by exists (String c a), b.
  - intros (a & b & ->). induction a as [|c a IH]; simpl.
    + destruct (p +:+ b) eqn:E; simpl; rewrite orb_true_iff; left;
        apply startsWith_spec; exists b; by rewrite E.
    + rewrite IH. apply orb_true_r.
Qed.

Lemma length_append (a b : string) :
  String.length (a +:+ b) = (String.length a + String.length b)%nat.
Proof.
  induction a as [|x a IH]; [reflexivity|].
  change (S (String.length (a +:+ b)) = S (String.length a + String.length b)).
  by rewrite IH.
Qed.

Lemma contains_length (s p : string) :
  Spec.contains s p -> (String.length p <= String.length s)%nat.
Proof. intros (a & b & ->). rewrite !length_append. lia. Qed.

Lemma is_lower_spec (c : ascii) :
  Js.is_lower c = true <-> Spec.lowercase c.
Proof.
  unfold Js.is_lower, Spec.lowercase.
  rewrite andb_true_iff, !N.leb_le. reflexivity.
Qed.

End StringFacts.

(** ** EdgeGuard *)

Section EdgeGuard.
Import Middleware Spec Sample.

Lemma isProtectedRoute_spec (path : string) :
  isProtectedRoute path = true <-> protected_path path.
Proof.
  unfold isProtectedRoute, protected_path, PROTECTED_PATTERNS. simpl.
  rewrite !orb_true_iff, !includes_spec. intuition discriminate.
Qed.

Lemma isAuthRoute_spec (path : string) :
  isAuthRoute path = true <-> auth_entry_path path.
Proof.
  unfold isAuthRoute, auth_entry_path, AUTH_ROUTES. simpl.
  rewrite !orb_true_iff, !includes_spec. intuition discriminate.
Qed.

Lemma truthy_token_spec (req : NextRequest) :
  Js.truthy (cookies req !! TOKEN_KEY) = true <-> credential_present req.
Proof.
  unfold credential_present, Js.truthy.
  destruct (cookies req !! TOKEN_KEY) as [v|].
  - rewrite negb_true_iff. split.
    + intros Hv. exists v. split; [done|]. by apply String.eqb_neq.
    + intros (v' & [= <-] & Hne). by apply String.eqb_neq.
  - split; [discriminate | intros (v & ? & _); discriminate].
Qed.

Lemma localeMatch_Some (path l : string) :
  localeMatch path = Some l <->
  exists c1 c2, has_locale path c1 c2 /\ l = String c1 (String c2 "").
Proof.
  unfold localeMatch, has_locale. split.
  - destruct path as [|a [|c1 [|c2 [|d rest]]]]; try discriminate;
      try (destruct a as [[] [] [] [] [] [] [] []]; discriminate).
    destruct a as [[] [] [] [] [] [] [] []]; try discriminate.
    destruct d as [[] [] [] [] [] [] [] []]; try discriminate.
    destruct (Js.is_lower c1) eqn:E1; [|discriminate].
    destruct (Js.is_lower c2) eqn:E2; [|discriminate].
    simpl. intros [= <-]. exists c1, c2.
    rewrite <- !is_lower_spec. eauto.
  - intros (c1 & c2 & (H1 & H2 & rest & ->) & ->).
    apply is_lower_spec in H1, H2. by rewrite H1, H2.
Qed.

Lemma locale_of_has_locale (path : string) (c1 c2 : ascii) :
  has_locale path c1 c2 -> locale path = String c1 (String c2 "").
Proof.
  intros Hl. unfold locale.
  assert (localeMatch path = Some (String c1 (String c2 ""))) as ->; [|done].
  apply localeMatch_Some. eauto.
Qed.

Lemma locale_default (path : string) :
  (forall c1 c2, ~ has_locale path c1 c2) -> locale path = "en".
Proof.
  intros Hn. unfold locale.
  destruct (localeMatch path) as [l|] eqn:E; [|done].
  apply localeMatch_Some in E as (c1 & c2 & Hl & _). by destruct (Hn c1 c2).
Qed.

(** The three branches of [middleware], read off the definition. *)
Lemma middleware_cases (req : NextRequest) :
  middleware req =
    if isProtectedRoute (pathname req) && negb (Js.truthy (cookies req !! TOKEN_KEY))
    then redirect (signin_url req (locale (pathname req)))
    else if isAuthRoute (pathname req) && Js.truthy (cookies req !! TOKEN_KEY)
    then redirect (dashboard_url req (locale (pathname req)))
    else next.
Proof. reflexivity. Qed.

Ltac route_cases req :=
  rewrite (middleware_cases req);
  pose proof (isProtectedRoute_spec (pathname req));
  pose proof (isAuthRoute_spec (pathname req));
  pose proof (truthy_token_spec req);
  destruct (isProtectedRoute (pathname req)),
           (isAuthRoute (pathname req)),
           (Js.truthy (cookies req !! TOKEN_KEY)); simpl.

Lemma protected_without_credential (req : NextRequest) :
  protected_path (pathname req) -> ~ credential_present req ->
  middleware req = redirect (signin_url req (locale (pathname req))).
Proof. route_cases req; intuition discriminate. Qed.

Lemma auth_entry_with_credential (req : NextRequest) :
  auth_entry_path (pathname req) -> credential_present req ->
  middleware req = redirect (dashboard_url req (locale (pathname req))).
Proof. route_cases req; intuition discriminate. Qed.

Lemma otherwise_next (req : NextRequest) :
  ~ (protected_path (pathname req) /\ ~ credential_present req) ->
  ~ (auth_entry_path (pathname req) /\ credential_present req) ->
  middleware req = next.
Proof. route_cases req; intuition discriminate. Qed.

Lemma redirect_target (req : NextRequest) (u : URL) :
  middleware req = redirect u ->
  (protected_path (pathname req) /\ ~ credential_present req /\
   u = signin_url req (locale (pathname req))) \/
  (auth_entry_path (pathname req) /\ credential_present req /\
   u = dashboard_url req (locale (pathname req))).
Proof.
  route_cases req; intros [= <-] || discriminate; intuition discriminate.
Qed.

(** C4: for every request path and credential state the middleware decides
    in priority order: a protected path without a credential is redirected
    to the signin entry with [callbackUrl] equal to the original path;
    otherwise an auth entry path with a credential is redirected to the
    dashboard; otherwise the request continues. In particular
    [/en/dashboard] without a credential goes to
    [/en/signin?callbackUrl=/en/dashboard], [/en/signin] with a credential
    goes to [/en/dashboard], and [/en/dashboard] with a credential passes. *)
Theorem middleware_priority (req : NextRequest) :
  (protected_path (pathname req) -> ~ credential_present req ->
   middleware req = redirect (signin_url req (locale (pathname req))) /\
   url_searchParams (signin_url req (locale (pathname req)))
     = [("callbackUrl", pathname req)]) /\
  (~ (protected_path (pathname req) /\ ~ credential_present req) ->
   auth_entry_path (pathname req) -> credential_present req ->
   middleware req = redirect (dashboard_url req (locale (pathname req)))) /\
  (~ (protected_path (pathname req) /\ ~ credential_present req) ->
   ~ (auth_entry_path (pathname req) /\ credential_present req) ->
   middleware req = next) /\
  (pathname req = "/en/dashboard" -> ~ credential_present req ->
   middleware req =
     redirect {| url_origin := origin req; url_pathname := "/en/signin";
                 url_searchParams := [("callbackUrl", "/en/dashboard")] |}) /\
  (pathname req = "/en/signin" -> credential_present req ->
   middleware req =
     redirect {| url_origin := origin req; url_pathname := "/en/dashboard";
                 url_searchParams := [] |}) /\
  (pathname req = "/en/dashboard" -> credential_present req ->
   middleware req = next).
Proof.
  repeat split.
  - by apply protected_without_credential.
  - intros _. by apply auth_entry_with_credential.
  - apply otherwise_next.
  - intros Hp Hc. rewrite protected_without_credential; [|  |done].
    + unfold signin_url. by rewrite Hp.
    + apply isProtectedRoute_spec. by rewrite Hp.
  - intros Hp Hc. rewrite auth_entry_with_credential; [|  |done].
    + unfold dashboard_url. by rewrite Hp.
    + apply isAuthRoute_spec. by rewrite Hp.
  - intros Hp Hc. apply otherwise_next.
    + tauto.
    + intros [Ha _]. apply isAuthRoute_spec in Ha. by rewrite Hp in Ha.
Qed.

Lemma middleware_priority_witness :
  middleware request_without_cookie =
    redirect {| url_origin := "https://app.inopsio.test";
                url_pathname := "/en/signin";
                url_searchParams := [("callbackUrl", "/en/dashboard")] |}.
Proof.
  apply (proj1 (proj2 (proj2 (proj2 (middleware_priority request_without_cookie))))).
  - reflexivity.
  - intros (v & Hv & _). vm_compute in Hv. discriminate.
Defined.

(** A path that is a two-letter segment and nothing else matches no
    pattern, so a redirected path with such a leading segment has the
    slash after it. *)
Lemma two_letter_path_passes (req : NextRequest) (c1 c2 : ascii) :
  pathname req = String "/" (String c1 (String c2 "")) ->
  middleware req = next.
Proof.
  intros Hp.
  assert (forall p, contains (pathname req) p -> (String.length p <= 3)%nat) as Hlen.
  { intros p Hc. apply contains_length in Hc. by rewrite Hp in Hc. }
  apply otherwise_next.
  - intros [[Hc | Hc] _]; apply Hlen in Hc; simpl in Hc; lia.
  - intros [[Hc | [Hc | Hc]] _]; apply Hlen in Hc; simpl in Hc; lia.
Qed.

(** C5, as it is stated, fails: [/FR/admin/users] starts with a segment
    of two letters, and without a credential it is sent to [/en/signin],
    not to [/FR/signin]. *)
Lemma two_letter_segment_kept_fails : ~ two_letter_segment_kept.
Proof.
  intros Hc.
  assert (letter "F" /\ letter "R") as [HF HR]
    by (split; right; vm_compute; intuition discriminate).
  destruct (Hc request_upper_case (signin_url request_upper_case "en")
              "F"%char "R"%char "admin/users" eq_refl HF HR eq_refl)
    as [H | H]; discriminate H.
Qed.

Example upper_case_segment_gets_default :
  middleware request_upper_case =
    redirect {| url_origin := "https://app.inopsio.test";
                url_pathname := "/en/signin";
                url_searchParams := [("callbackUrl", "/FR/admin/users")] |}.
Proof. reflexivity. Qed.

(** C5, amended: on every path on which the middleware redirects, the
    target keeps the leading locale segment of the request when that is two
    lower-case letters of [a-z] between slashes, and uses [en] otherwise
    (also for a leading segment in upper case); so a protected path without
    such a segment and without a credential goes to
    [/en/signin?callbackUrl=<original path>]. A redirected path is never a
    bare two-letter segment, so the slash after the segment is no
    restriction. *)
Theorem redirect_keeps_locale (req : NextRequest) (u : URL) :
  middleware req = redirect u ->
  (forall c1 c2, has_locale (pathname req) c1 c2 ->
     u = signin_url req (String c1 (String c2 "")) \/
     u = dashboard_url req (String c1 (String c2 ""))) /\
  ((forall c1 c2, ~ has_locale (pathname req) c1 c2) ->
     u = signin_url req "en" \/ u = dashboard_url req "en") /\
  ((forall c1 c2, ~ has_locale (pathname req) c1 c2) ->
     protected_path (pathname req) -> ~ credential_present req ->
     u = {| url_origin := origin req; url_pathname := "/en/signin";
            url_searchParams := [("callbackUrl", pathname req)] |}) /\
  (forall c1 c2, pathname req <> String "/" (String c1 (String c2 ""))).
Proof.
  intros Hr. split; [|split; [|split]]; cycle 3.
  { intros c1 c2 Hp. by rewrite (two_letter_path_passes _ _ _ Hp) in Hr. }
  - intros c1 c2 Hl. rewrite <- (locale_of_has_locale _ _ _ Hl).
    destruct (redirect_target _ _ Hr) as [(_ & _ & ->) | (_ & _ & ->)]; auto.
  - intros Hn. rewrite <- (locale_default _ Hn).
    destruct (redirect_target _ _ Hr) as [(_ & _ & ->) | (_ & _ & ->)]; auto.
  - intros Hn Hp Hc.
    rewrite (protected_without_credential _ Hp Hc) in Hr.
    injection Hr as <-. unfold signin_url. by rewrite (locale_default _ Hn).
Qed.

Lemma redirect_keeps_locale_witness :
  signin_url request_french_admin "fr" = signin_url request_french_admin "fr" \/
  signin_url request_french_admin "fr" = dashboard_url request_french_admin "fr".
Proof.
  apply (proj1 (redirect_keeps_locale request_french_admin
                  (signin_url request_french_admin "fr") eq_refl) "f"%char "r"%char).
  repeat split; [vm_compute; intuition discriminate ..|].
  by exists "admin/users".
Defined.

(** C10: the middleware classifies paths by substring containment, not by
    leading segment: a path is protected exactly when ["/dashboard"] or
    ["/admin"] occurs anywhere in it, and an auth entry path exactly when
    ["/signin"], ["/signup"] or ["/login"] occurs anywhere in it; so
    [/en/blog/admin-tips], none of whose segments is [admin], is redirected
    to the signin entry when no credential is present. *)
Theorem classification_by_containment :
  (forall path, isProtectedRoute path = true <->
     contains path "/dashboard" \/ contains path "/admin") /\
  (forall path, isAuthRoute path = true <->
     contains path "/signin" \/ contains path "/signup" \/ contains path "/login") /\
  (forall req, protected_path (pathname req) -> ~ credential_present req ->
     middleware req = redirect (signin_url req (locale (pathname req)))) /\
  (forall req, auth_entry_path (pathname req) -> credential_present req ->
     middleware req = redirect (dashboard_url req (locale (pathname req)))) /\
  Js.split_on "/" "/en/blog/admin-tips" = [""; "en"; "blog"; "admin-tips"] /\
  (forall req, pathname req = "/en/blog/admin-tips" -> ~ credential_present req ->
     middleware req =
       redirect {| url_origin := origin req; url_pathname := "/en/signin";
                   url_searchParams := [("callbackUrl", "/en/blog/admin-tips")] |}).
Proof.
  split; [exact isProtectedRoute_spec|].
  split; [exact isAuthRoute_spec|].
  split; [exact protected_without_credential|].
  split; [exact auth_entry_with_credential|].
  split; [reflexivity|].
  intros req Hp Hc. rewrite protected_without_credential; [| |done].
  - unfold signin_url. by rewrite Hp.
  - apply isProtectedRoute_spec. by rewrite Hp.
Qed.

Lemma classification_by_containment_witness :
  middleware request_blog_post =
    redirect {| url_origin := "https://app.inopsio.test";
                url_pathname := "/en/signin";
                url_searchParams := [("callbackUrl", "/en/blog/admin-tips")] |}.
Proof.
  apply (proj2 (proj2 (proj2 (proj2 (proj2 classification_by_containment))))
           request_blog_post).
  - reflexivity.
  - intros (v & Hv & _). vm_compute in Hv. discriminate.
Defined.

End EdgeGuard.

(** ** Conversions of JSON values *)

Section Conversions.
Import Js Spec.

Lemma value_ind_nested (P : value -> Prop) :
  P Undefined -> P Null -> (forall b, P (Bool b)) -> (forall n, P (Number n)) ->
  (forall s, P (Str s)) ->
  (forall items, Forall P items -> P (Arr items)) ->
  (forall props, P (Obj props)) ->
  forall v, P v.
Proof.
  intros HU HN HB HNum HS HA HO. fix IH 1.
  intros [| | b | n | s | items | props];
    [exact HU | exact HN | apply HB | apply HNum | apply HS | | apply HO].
  apply HA. revert items. fix IHl 1.
  intros [|x r]; constructor; [apply IH | apply IHl].
Qed.

Lemma join_texts_Type_error (sep : string) (a b : conversion string) :
  join_texts sep a b = Type_error <-> a = Type_error \/ b = Type_error.
Proof. destruct a, b; simpl; split; intros H; try done; intuition discriminate. Qed.

(** [ToString] throws exactly on the values without a string form. *)
Lemma ToString_unconvertible (v : value) :
  ToString v = Type_error <-> unconvertible v.
Proof.
  induction v as [| | b | n | s | items IH | props] using value_ind_nested;
    simpl; try (split; [discriminate | tauto]).
  - destruct (int_of_number n); split; (discriminate || tauto).
  - induction IH as [|x r Hx _ IHr]; [split; [discriminate | tauto]|].
    assert (match x with
            | Undefined | Null => Converted ""
            | _ => ToString x
            end = Type_error <-> unconvertible x) as Hx'.
    { destruct x; try exact Hx; simpl; split; (discriminate || tauto). }
    destruct r as [|y r].
    + rewrite Hx'. simpl. tauto.
    + rewrite join_texts_Type_error, Hx', IHr. tauto.
  - destruct (own_prop props "toString"); split; try done; intros H; by destruct H.
Qed.

Example ToString_samples :
  ToString (Arr [Obj [("msg", Str "field required")]]) = Converted "[object Object]" /\
  ToString (Arr [Number (Dec 1 0); Null; Str "a"; Arr [Bool true; Bool false]])
    = Converted "1,,a,true,false" /\
  ToString (Obj [("toString", Number (Dec 2 0))]) = Type_error /\
  ToString (Arr [Number (Dec 15 (-1)); Obj [("toString", Null)]]) = Type_error /\
  ToString (Number (Dec 15 (-1))) = Inexact.
Proof. repeat split; reflexivity. Qed.

Lemma ToNumber_unconvertible (v : value) :
  ToNumber v = Type_error <-> unconvertible v.
Proof.
  destruct v as [| | b | n | s | items | props];
    try (simpl; split; [discriminate | tauto]).
  - simpl. destruct (int_of_number n); split; (discriminate || tauto).
  - rewrite <- ToString_unconvertible. unfold ToNumber.
    destruct (ToString (Arr items)); split; (discriminate || tauto).
  - simpl. destruct (own_prop props "toString"); split; try done;
      intros H; by destruct H.
Qed.

End Conversions.

(** ** Token decoding and expiry *)

Section Tokens.
Import Js Api Auth Spec Sample.
Local Open Scope Z_scope.

Lemma split_on_no_separator (c : ascii) (s : string) :
  (forall a b, s <> a +:+ String c b) -> split_on c s = [s].
Proof.
  induction s as [|x s IH]; intros Hn; simpl; [done|].
  destruct (Ascii.eqb_spec x c) as [->|Hx].
  - by destruct (Hn "" s).
  - rewrite IH; [done|]. intros a b ->. by apply (Hn (String x a) b).
Qed.

Lemma decodeToken_without_dot (token : string) :
  ~ contains token "." -> decodeToken token = Return Null.
Proof.
  intros Hn. unfold decodeToken.
  rewrite split_on_no_separator; [reflexivity|].
  intros a b ->. apply Hn. by exists a, b.
Qed.

Lemma decodeToken_malformed (token : string) :
  malformed token -> decodeToken token = Return Null.
Proof.
  intros [Hn | (seg & Hseg & Hbad)]; [by apply decodeToken_without_dot|].
  unfold decodeToken. rewrite Hseg. simpl.
  destruct Hbad as [-> | (text & -> & ->)]; reflexivity.
Qed.

Lemma isTokenExpired_null (now : Z) (token : string) :
  decodeToken token = Return Null -> isTokenExpired now token = Return true.
Proof. intros Hd. unfold isTokenExpired. by rewrite Hd. Qed.

(** C9: for every string whose second dot-separated segment is not
    base64-encoded JSON, strings without any dot included, [decodeToken]
    returns [null] and does not throw, and [isTokenExpired] returns [true]:
    a malformed token counts as expired. *)
Theorem malformed_token_is_expired (token : string) (now : Z) :
  malformed token ->
  decodeToken token = Return Null /\ isTokenExpired now token = Return true.
Proof.
  intros Hm. pose proof (decodeToken_malformed _ Hm) as Hd.
  split; [done | by apply isTokenExpired_null].
Qed.

Lemma malformed_token_is_expired_witness :
  decodeToken "not-a-jwt" = Return Null /\
  isTokenExpired 1700000000000 "not-a-jwt" = Return true.
Proof.
  apply malformed_token_is_expired.
  left. intros (a & b & Hab).
  assert (includes "not-a-jwt" "." = true) as Hi
    by (apply includes_spec; by exists a, b).
  vm_compute in Hi. discriminate.
Defined.





End Tokens.

(** ** The API client *)

Section ApiClient.
Import Js Api Spec Sample.
Local Open Scope Z_scope.

Variable url : string.

Lemma apiFetch_received (w : Window) (randomUUID : option string) (fetch : Fetch)
    (endpoint : string) (options : RequestInit)
    (rid : string) (request : Request) (response : Response) :
  apiFetch_request url w randomUUID endpoint options = Some (rid, request) ->
  fetch request = Some response ->
  apiFetch url w randomUUID fetch endpoint options = apiFetch_response rid response.
Proof. intros Hq Hf. unfold apiFetch. by rewrite Hq, Hf. Qed.

Lemma error_response_never_returns (rid : string) (response : Response) :
  ok response = false -> forall v, apiFetch_response rid response <> Return v.
Proof.
  intros Hok v. unfold apiFetch_response. rewrite Hok. simpl.
  destruct (get _ "detail") as [d|]; [|discriminate].
  destruct (or_message d _); discriminate.
Qed.

Lemma get_error_detail (response : Response) :
  readable_body response ->
  get (default (Obj []) (resp_json response)) "detail" = Some (body_detail response).
Proof.
  unfold body_detail, readable_body. intros [Hn Hu].
  destruct (resp_json response) as [[| | | | | |]|]; simpl; try reflexivity.
  - by destruct Hu.
  - by destruct Hn.
Qed.

Lemma unreadable_error_body (response : Response) :
  ~ readable_body response ->
  get (default (Obj []) (resp_json response)) "detail" = None.
Proof.
  unfold readable_body. intros Hn.
  destruct (resp_json response) as [[| | | | | |]|]; simpl; try reflexivity;
    destruct Hn; split; discriminate.
Qed.

Lemma error_response_throws (rid : string) (response : Response) (m : string) :
  ok response = false ->
  readable_body response ->
  or_message (body_detail response) (fallback_message response) = Converted m ->
  exists rid',
    apiFetch_response rid response =
      Throw (ApiError_ {| message := m; status := resp_status response;
                          detail := body_detail response; requestId := rid' |}).
Proof.
  intros Hok Hn Hm. unfold apiFetch_response. rewrite Hok. simpl.
  rewrite (get_error_detail _ Hn). unfold fallback_message in Hm. rewrite Hm.
  eauto.
Qed.

Lemma unconvertible_truthy (v : value) :
  unconvertible v -> ToBoolean v = Some true.
Proof. by destruct v. Qed.

Lemma error_response_unconvertible (rid : string) (response : Response) :
  ok response = false ->
  readable_body response ->
  unconvertible (body_detail response) ->
  apiFetch_response rid response = Throw TypeError_.
Proof.
  intros Hok Hn Hu. unfold apiFetch_response. rewrite Hok. simpl.
  rewrite (get_error_detail _ Hn). unfold or_message.
  rewrite (unconvertible_truthy _ Hu).
  apply ToString_unconvertible in Hu. by rewrite Hu.
Qed.

(** C6, as it is stated, fails: a 200 response whose body is not JSON makes
    [apiFetch] throw the [SyntaxError] of [response.json()]. *)
Lemma apiFetch_as_specified_fails : ~ apiFetch_as_specified.
Proof.
  intros Hc.
  destruct (Hc "https://api.inopsio.test" (Some fresh_browser) (Some "id-1")
              server_plain_text "/api/v1/users" no_options _ _
              {| resp_status := 200; resp_headers := ∅; resp_json := None |}
              eq_refl eq_refl) as [_ Hok].
  destruct (Hok eq_refl) as (v & Hv & _).
  vm_compute in Hv. discriminate.
Qed.

(** More responses on which the wording of the specification fails: an
    empty [detail] gives the fallback message, a [detail] that is a list of
    validation errors gives the message [[object Object]], and an error
    body [null] gives a [TypeError] instead of an [ApiError]. *)
Example empty_detail_gives_fallback :
  apiFetch_response "id-1"
    {| resp_status := 500; resp_headers := ∅;
       resp_json := Some (Obj [("detail", Str "")]) |}
  = Throw (ApiError_ {| message := "Request failed with status 500";
                        status := 500; detail := Str ""; requestId := "id-1" |}).
Proof. reflexivity. Qed.

Example list_detail_gives_object_text :
  apiFetch "https://api.inopsio.test" (Some fresh_browser) (Some "id-1")
    server_validation_error "/api/v1/users" no_options
  = Throw (ApiError_ {| message := "[object Object]"; status := 422;
                        detail := Arr [Obj [("msg", Str "field required")]];
                        requestId := "id-1" |}).
Proof. reflexivity. Qed.

Example null_error_body_throws :
  apiFetch_response "id-1"
    {| resp_status := 500; resp_headers := ∅; resp_json := Some Null |}
  = Throw TypeError_.
Proof. reflexivity. Qed.

(** C6, amended: for every response [apiFetch] receives, an error status
    never yields a returned value. When the error body is not [null], the
    call throws an [ApiError] whose status is the response status and whose
    message is the body's [detail] when that is a non-empty string, the
    fallback [Request failed with status <status>] when [detail] is absent
    or falsy, and the string form of any other [detail] ([true], the digits
    of an integer, [[object Object]] for an object, the elements of an
    array joined by commas; the text of a number that is no exact integer
    is not computed here); a [detail] without a string form (an object with
    a [toString] member of its own, or an array that holds one) makes it
    throw a [TypeError] instead, and so does the error body [null]. An ok
    status yields [{}] for 204, otherwise the parsed body when the body is
    JSON and the [SyntaxError] of [response.json()] when it is not. *)
Theorem apiFetch_surfaces_failures (w : Window) (randomUUID : option string)
    (fetch : Fetch) (endpoint : string) (options : RequestInit)
    (rid : string) (request : Request) (response : Response) :
  apiFetch_request url w randomUUID endpoint options = Some (rid, request) ->
  fetch request = Some response ->
  let result := apiFetch url w randomUUID fetch endpoint options in
  (ok response = false -> forall v, result <> Return v) /\
  (ok response = false -> readable_body response ->
   forall d, body_detail response = Str d -> d <> "" ->
   exists rid', result =
     Throw (ApiError_ {| message := d; status := resp_status response;
                         detail := Str d; requestId := rid' |})) /\
  (ok response = false -> readable_body response ->
   ToBoolean (body_detail response) = Some false ->
   exists rid', result =
     Throw (ApiError_ {| message := fallback_message response;
                         status := resp_status response;
                         detail := body_detail response; requestId := rid' |})) /\
  (ok response = false -> readable_body response ->
   ToBoolean (body_detail response) = Some true ->
   forall m, ToString (body_detail response) = Converted m ->
   exists rid', result =
     Throw (ApiError_ {| message := m; status := resp_status response;
                         detail := body_detail response; requestId := rid' |})) /\
  (ok response = false -> readable_body response ->
   unconvertible (body_detail response) -> result = Throw TypeError_) /\
  (ok response = false -> ~ readable_body response -> result = Throw TypeError_) /\
  (ok response = true -> resp_status response = 204 -> result = Return (Obj [])) /\
  (ok response = true -> resp_status response <> 204 ->
   forall v, resp_json response = Some v -> result = Return v) /\
  (ok response = true -> resp_status response <> 204 ->
   resp_json response = None -> result = Throw SyntaxError_).
Proof.
  intros Hq Hf result. subst result.
  rewrite (apiFetch_received _ _ _ _ _ _ _ _ Hq Hf).
  split; [apply error_response_never_returns|].
  split.
  { intros Hok Hn d Hd Hne.
    destruct (error_response_throws rid response d Hok Hn) as [rid' Hr].
    - rewrite Hd. unfold or_message. simpl.
      apply String.eqb_neq in Hne. by rewrite Hne.
    - rewrite Hd in Hr. eauto. }
  split.
  { intros Hok Hn Hb. apply (error_response_throws rid response _ Hok Hn).
    unfold or_message. by rewrite Hb. }
  split.
  { intros Hok Hn Hb m Hm. apply (error_response_throws rid response _ Hok Hn).
    unfold or_message. by rewrite Hb. }
  split; [intros Hok Hn Hu; by apply error_response_unconvertible|].
  split.
  { intros Hok Hn. unfold apiFetch_response. rewrite Hok. simpl.
    by rewrite (unreadable_error_body _ Hn). }
  split.
  { intros Hok Hs. unfold apiFetch_response. rewrite Hok, Hs. reflexivity. }
  split.
  - intros Hok Hs v Hv. unfold apiFetch_response. rewrite Hok, Hv. simpl.
    apply Z.eqb_neq in Hs. by rewrite Hs.
  - intros Hok Hs Hv. unfold apiFetch_response. rewrite Hok, Hv. simpl.
    apply Z.eqb_neq in Hs. by rewrite Hs.
Qed.

End ApiClient.

Lemma apiFetch_surfaces_failures_witness :
  exists rid,
    Api.apiFetch "https://api.inopsio.test" (Some Sample.fresh_browser) (Some "id-1")
      Sample.server_not_found "/api/v1/users/7" Sample.no_options =
    Api.Throw (Api.ApiError_ {| Api.message := "User not found";
                                Api.status := 404;
                                Api.detail := Js.Str "User not found";
                                Api.requestId := rid |}).
Proof.
  refine (proj1 (proj2 (apiFetch_surfaces_failures "https://api.inopsio.test"
            (Some Sample.fresh_browser) (Some "id-1") Sample.server_not_found
            "/api/v1/users/7" Sample.no_options _ _ _ eq_refl eq_refl))
            _ _ "User not found" _ _).
  - reflexivity.
  - split; discriminate.
  - reflexivity.
  - discriminate.
Defined.

(** ** Token storage and login *)

Section Session.
Import Js Api Auth Spec Sample.
Local Open Scope Z_scope.

Lemma split_on_nonempty (c : ascii) (s : string) : split_on c s <> [].
Proof.
  destruct s as [|x s]; simpl; [done|].
  destruct (Ascii.eqb x c); [done|]. by destruct (split_on c s).
Qed.

Lemma split_on_app (c : ascii) (a b : string) :
  split_on c (a +:+ String c b) = (split_on c a ++ split_on c b)%list.
Proof.
  induction a as [|x a IH].
  - change (split_on c (String c b) = "" :: split_on c b).
    simpl. by rewrite Ascii.eqb_refl.
  - change (split_on c (String x (a +:+ String c b))
            = (split_on c (String x a) ++ split_on c b)%list).
    simpl. destruct (Ascii.eqb x c); [by rewrite IH|].
    rewrite IH. pose proof (split_on_nonempty c a).
    by destruct (split_on c a).
Qed.

(** C8: for every token string [t], [setToken] stores [t] under the key
    [inopsio_token] in [localStorage] and mirrors it into a cookie of the
    same name with the [SameSite] attribute, path [/] and a lifetime of 7
    days ([max-age=604800]); the cookie name is the one the middleware
    reads, so the middleware finds the credential in the request itself. *)
Theorem setToken_mirrors_cookie (b : Browser) (t : string) :
  exists b' cookie,
    setToken t (Some b) = Some b' /\
    localStorage b' !! "inopsio_token" = Some t /\
    getToken (Some b') = Some t /\
    document_cookie b' = cookie :: document_cookie b /\
    cookie = "inopsio_token=" +:+ t +:+ "; path=/; max-age=604800; SameSite=Lax" /\
    split_on ";" cookie =
      (split_on ";" ("inopsio_token=" +:+ t)
         ++ [" path=/"; " max-age=604800"; " SameSite=Lax"])%list /\
    604800 = 7 * 24 * 60 * 60 /\
    Api.TOKEN_KEY = Middleware.TOKEN_KEY /\
    forall req : Middleware.NextRequest,
      Middleware.cookies req !! Api.TOKEN_KEY = Some t ->
      Middleware.cookies req !! Middleware.TOKEN_KEY = Some t.
Proof.
  eexists _, (("inopsio_token=" +:+ t)
                +:+ String ";" " path=/; max-age=604800; SameSite=Lax").
  split; [reflexivity|].
  split; [apply lookup_insert_eq|].
  split; [apply lookup_insert_eq|].
  split; [reflexivity|].
  split; [reflexivity|].
  split.
  - rewrite split_on_app. reflexivity.
  - split; [reflexivity|]. split; [reflexivity|].
    intros req Hreq. exact Hreq.
Qed.

Lemma setToken_mirrors_cookie_witness :
  Middleware.cookies request_with_token !! Middleware.TOKEN_KEY = Some token_2023.
Proof.
  destruct (setToken_mirrors_cookie fresh_browser token_2023)
    as (b' & cookie & _ & _ & _ & _ & _ & _ & _ & _ & Hreq).
  apply Hreq. reflexivity.
Defined.

Variable url : string.

Example login_headers_read :
  new_Headers [("Content-Type", "application/x-www-form-urlencoded")]
  = Some login_headers /\
  login_headers = {[ "content-type" := "application/x-www-form-urlencoded" ]}.
Proof. split; reflexivity. Qed.

Lemma login_accepted (w : Window) (fetch : Fetch) (email password : string)
    (response : Response) (data tokv : value) (t : string) :
  fetch (login_request url email password) = Some response ->
  ok response = true ->
  resp_json response = Some data ->
  get data "access_token" = Some tokv ->
  ToString tokv = Converted t ->
  login url w fetch email password = (setToken t w, Return data).
Proof.
  intros Hf Hok Hj Ht Hs. unfold login. rewrite Hf, Hok, Hj. simpl. rewrite Ht.
  unfold setToken_of. rewrite Hs. by destruct w.
Qed.



End Session.


(** ** The tenant scoped store *)

Section Tenants.
Import TenantScopedStore Sample.

Context {E : Type} `{TenantOwned E}.

Lemma scoped_spec (org : string) (f : E -> bool) (e : E) :
  scoped org f e = true <-> organization_id e = org /\ f e = true.
Proof. unfold scoped. by rewrite andb_true_iff, String.eqb_eq. Qed.

Lemma list_scoped_items (rows : list E) (org : string) (f : E -> bool)
    (skip limit : nat) (e : E) :
  e ∈ items (list_scoped rows org f skip limit) ->
  e ∈ rows /\ organization_id e = org /\ f e = true.
Proof.
  simpl. intros He.
  apply (subseteq_take limit), (subseteq_drop skip) in He.
  apply list_elem_of_In, filter_In in He as [Hin Hs].
  apply scoped_spec in Hs. split; [by apply list_elem_of_In | done].
Qed.

Lemma filter_ext_scoped (rows : list E) (org : string) (f g : E -> bool) :
  (forall e, scoped org f e = scoped org g e) ->
  List.filter (scoped org f) rows = List.filter (scoped org g) rows.
Proof.
  intros Hfg. induction rows as [|e rows IH]; simpl; [done|].
  by rewrite Hfg, IH.
Qed.

(** C2: for organizations [A] and [B] (their rows are disjoint, a row
    carrying one organization id), every [list] scoped to [A] returns only
    rows of [A] and never a row of [B], whatever filter the caller passes,
    also one without an organization constraint; the caller's filter is
    composed with the organization constraint and cannot replace it. *)
Theorem list_scoped_isolation (rows : list E) (A B : string) (f : E -> bool)
    (skip limit : nat) :
  A <> B ->
  (forall e, e ∈ items (list_scoped rows A f skip limit) ->
     e ∈ rows /\ organization_id e = A /\ organization_id e <> B /\ f e = true) /\
  (forall e, e ∈ items (list_scoped rows A (fun _ => true) skip limit) ->
     organization_id e = A /\ organization_id e <> B) /\
  list_scoped rows A f skip limit =
    list_scoped rows A (fun e => String.eqb (organization_id e) A && f e) skip limit /\
  items (list_scoped rows A (fun e => String.eqb (organization_id e) B) skip limit) = [] /\
  total (list_scoped rows A f skip limit) =
    List.length (List.filter (fun e => String.eqb (organization_id e) A && f e) rows).
Proof.
  intros HAB. split; [|split; [|split; [|split]]].
  - intros e He. apply list_scoped_items in He as (Hin & Ho & Hf).
    repeat split; [done | done | congruence | done].
  - intros e He. apply list_scoped_items in He as (_ & Ho & _).
    split; [done | congruence].
  - unfold list_scoped.
    rewrite (filter_ext_scoped rows A f
               (fun e => String.eqb (organization_id e) A && f e)); [done|].
    intros e. unfold scoped. by destruct (String.eqb (organization_id e) A).
  - destruct (items _) as [|e l] eqn:Hl; [done|].
    assert (e ∈ items (list_scoped rows A
              (fun e => String.eqb (organization_id e) B) skip limit)) as He
      by (rewrite Hl; left).
    apply list_scoped_items in He as (_ & HA & HB).
    apply String.eqb_eq in HB. congruence.
  - reflexivity.
Qed.

Lemma get_not_found (rows : list E) (org id : string) :
  (forall e, e ∈ rows -> entity_id e = id -> organization_id e <> org) ->
  get rows org id = Failed NotFound.
Proof.
  intros Hn. unfold get.
  destruct (List.find _ rows) as [e|] eqn:Hf; [|done].
  apply find_some in Hf as [Hin Hs].
  apply scoped_spec in Hs as [Ho Hi]. apply String.eqb_eq in Hi.
  destruct (Hn e); [by apply list_elem_of_In | done | done].
Qed.

(** C3: for every id that belongs to organization [B], [get] with scope
    [A] (distinct from [B]) returns [NotFound], the same result as for an
    id that exists in no organization; [get] produces no other failure, so
    no [Forbidden] signal distinguishes the two. *)
Theorem get_hides_other_tenants (rows : list E) (A B id : string) :
  A <> B ->
  (exists e, e ∈ rows /\ entity_id e = id) ->
  (forall e, e ∈ rows -> entity_id e = id -> organization_id e = B) ->
  get rows A id = Failed NotFound /\
  (forall absent, (forall e, e ∈ rows -> entity_id e <> absent) ->
     get rows A absent = get rows A id) /\
  (forall org i failure, get rows org i = Failed failure -> failure = NotFound).
Proof.
  intros HAB _ HB.
  assert (get rows A id = Failed NotFound) as Hg.
  { apply get_not_found. intros e Hin Hi. rewrite (HB e Hin Hi). congruence. }
  split; [done|]. split.
  - intros absent Ha. rewrite Hg. apply get_not_found.
    intros e Hin Hi. by destruct (Ha e Hin).
  - intros org i failure. unfold get. destruct (List.find _ rows); congruence.
Qed.

End Tenants.

Section TwoTenants.
Import TenantScopedStore Sample.

Lemma list_scoped_isolation_witness :
  Forall (fun e : Resource =>
            organization_id e = "org-a" /\ organization_id e <> "org-b")
         (items (list_scoped rows_of_two_tenants "org-a" (fun _ => true) 0 10)).
Proof.
  apply Forall_forall. intros e He.
  refine (proj1 (proj2 (list_scoped_isolation rows_of_two_tenants
            "org-a" "org-b" (fun _ => true) 0 10 _)) e He).
  discriminate.
Defined.

Lemma get_hides_other_tenants_witness :
  get rows_of_two_tenants "org-a" "r2" = Failed NotFound.
Proof.
  refine (proj1 (get_hides_other_tenants rows_of_two_tenants
            "org-a" "org-b" "r2" _ _ _)).
  - discriminate.
  - eexists. split; [right; left | reflexivity].
  - intros e He Hid.
    repeat (apply elem_of_cons in He as [-> | He]; [try reflexivity; discriminate|]).
    by apply elem_of_nil in He.
Defined.

End TwoTenants.

(** * Further properties of the sources *)

(** ** Token storage *)

Section TokenStorage.
Import Js Api Auth Spec Sample.

(** X1: the token read back is the one written last: a [clearToken]
    removes it whatever was stored, a later [setToken] replaces an earlier
    one and survives an earlier clear; without a window nothing is ever
    stored. *)
Theorem token_last_write_wins (w : Window) (t t' : string) :
  getToken (clearToken w) = None /\
  getToken (clearToken (setToken t w)) = None /\
  getToken (setToken t (clearToken w)) = getToken (setToken t w) /\
  getToken (setToken t (setToken t' w)) = getToken (setToken t w) /\
  (forall b, w = Some b -> getToken (setToken t w) = Some t) /\
  (w = None -> getToken (setToken t w) = None).
Proof.
  destruct w as [b|]; simpl; repeat split; try done.
  - apply lookup_delete_eq.
  - apply lookup_delete_eq.
  - by rewrite !lookup_insert_eq.
  - by rewrite !lookup_insert_eq.
  - intros b' _. apply lookup_insert_eq.
Qed.

Lemma token_last_write_wins_witness :
  getToken (setToken token_2023 (Some fresh_browser)) = Some token_2023.
Proof.
  exact (proj1 (proj2 (proj2 (proj2 (proj2
    (token_last_write_wins (Some fresh_browser) token_2023 "")))))
    fresh_browser eq_refl).
Defined.

(** X2: [setToken], [clearToken] and [logout] touch no other key of
    [localStorage], and the first two leave [window.location.href] alone. *)
Theorem token_storage_frame (w : Window) (t redirectTo k : string) :
  k <> TOKEN_KEY ->
  stored (setToken t w) k = stored w k /\
  stored (clearToken w) k = stored w k /\
  stored (logout redirectTo w) k = stored w k /\
  location_href <$> setToken t w = location_href <$> w /\
  location_href <$> clearToken w = location_href <$> w.
Proof.
  intros Hk. destruct w as [b|]; simpl; repeat split; try done.
  - by apply lookup_insert_ne.
  - by apply lookup_delete_ne.
  - by apply lookup_delete_ne.
Qed.

Lemma token_storage_frame_witness :
  stored (logout "/signin" (setToken token_2023 (Some browser_with_theme))) "theme"
  = Some "dark".
Proof.
  assert ("theme" <> TOKEN_KEY) as Hk by discriminate.
  rewrite (proj1 (proj2 (proj2 (token_storage_frame
    (setToken token_2023 (Some browser_with_theme)) "" "/signin" "theme" Hk)))).
  rewrite (proj1 (token_storage_frame (Some browser_with_theme)
             token_2023 "" "theme" Hk)).
  reflexivity.
Defined.

(** X3: [isAuthenticated] holds exactly when a window exists and a
    non-empty token is stored; so it is false on the server, false after
    [setToken] of the empty string, and false after [clearToken] and
    [logout], which moreover sends the window to [redirectTo]. *)
Theorem isAuthenticated_spec (w : Window) (t redirectTo : string) :
  (isAuthenticated w = true <-> exists s, stored w TOKEN_KEY = Some s /\ s <> "") /\
  isAuthenticated (setToken t w) = match w with
                                   | Some _ => negb (String.eqb t "")
                                   | None => false
                                   end /\
  isAuthenticated (clearToken w) = false /\
  isAuthenticated (logout redirectTo w) = false /\
  location_href <$> logout redirectTo w = (fun _ => redirectTo) <$> w.
Proof.
  split; [|destruct w as [b|]; simpl; unfold isAuthenticated; simpl;
           rewrite ?lookup_insert_eq, ?lookup_delete_eq; done].
  unfold isAuthenticated, truthy, stored, getToken.
  destruct w as [b|]; simpl.
  - destruct (localStorage b !! TOKEN_KEY) as [s|].
    + rewrite negb_true_iff, String.eqb_neq. split.
      * intros Hs. by exists s.
      * by intros (s' & [= <-] & Hs).
    + split; [done | by intros (s' & ? & _)].
  - split; [done | by intros (s' & ? & _)].
Qed.

End TokenStorage.

(** ** Decoding without verification *)

Section Unverified.
Import Js Api Auth Spec Sample.
Local Open Scope Z_scope.

Lemma no_dot_split (s : string) :
  ~ contains s "." -> split_on "." s = [s].
Proof.
  intros Hn. apply split_on_no_separator.
  intros a b ->. apply Hn. by exists a, b.
Qed.

Lemma second_segment (h p rest : string) :
  ~ contains h "." -> ~ contains p "." ->
  split_on "." (h +:+ "." +:+ p) !! 1%nat = Some p /\
  split_on "." (h +:+ "." +:+ p +:+ "." +:+ rest) !! 1%nat = Some p.
Proof.
  intros Hh Hp. split.
  - change (h +:+ "." +:+ p) with (h +:+ String "." p).
    rewrite split_on_app, !no_dot_split by assumption. reflexivity.
  - change (h +:+ "." +:+ p +:+ "." +:+ rest)
      with (h +:+ String "." (p +:+ String "." rest)).
    rewrite !split_on_app, !no_dot_split by assumption. reflexivity.
Qed.

(** X11: [decodeToken] reads the second segment only: tokens with the same
    payload segment decode alike whatever their header and signature are,
    and whether or not a signature is there at all; [isTokenExpired]
    follows. Nothing is verified. *)
Theorem decodeToken_ignores_signature (h h' p sig sig' : string) (now : Z) :
  ~ contains h "." -> ~ contains h' "." -> ~ contains p "." ->
  decodeToken (h +:+ "." +:+ p +:+ "." +:+ sig)
    = decodeToken (h' +:+ "." +:+ p +:+ "." +:+ sig') /\
  decodeToken (h +:+ "." +:+ p +:+ "." +:+ sig) = decodeToken (h' +:+ "." +:+ p) /\
  isTokenExpired now (h +:+ "." +:+ p +:+ "." +:+ sig)
    = isTokenExpired now (h' +:+ "." +:+ p +:+ "." +:+ sig').
Proof.
  intros Hh Hh' Hp.
  assert (forall a rest, ~ contains a "." ->
            decodeToken (a +:+ "." +:+ p +:+ "." +:+ rest)
            = decodeToken (h' +:+ "." +:+ p)) as Hd.
  { intros a rest Ha. unfold decodeToken.
    rewrite (proj2 (second_segment a p rest Ha Hp)).
    by rewrite (proj1 (second_segment h' p "" Hh' Hp)). }
  split; [|split].
  - by rewrite !Hd.
  - by apply Hd.
  - unfold isTokenExpired. by rewrite !Hd.
Qed.

Lemma dot_free (s : string) : includes s "." = false -> ~ contains s ".".
Proof. intros Hi Hc. apply includes_spec in Hc. congruence. Qed.

Lemma decodeToken_ignores_signature_witness :
  decodeToken token_2023 = decodeToken "x.eyJzdWIiOiJ1MSIsImV4cCI6MTcwMDAwMDAwMH0".
Proof.
  exact (proj1 (proj2 (decodeToken_ignores_signature
    "h" "x" "eyJzdWIiOiJ1MSIsImV4cCI6MTcwMDAwMDAwMH0" "s" "" 0
    (dot_free "h" eq_refl) (dot_free "x" eq_refl)
    (dot_free "eyJzdWIiOiJ1MSIsImV4cCI6MTcwMDAwMDAwMH0" eq_refl)))).
Defined.

(** X12: when the decoded payload has no [exp] to read (an object without
    that member, or an array, string, number or boolean), the verdict does
    not depend on the time: the token is expired exactly when the payload
    is falsy; in particular an object payload without [exp] never
    expires. *)
Theorem payload_without_exp (token : string) (payload : value) (b : bool) (now : Z) :
  decodeToken token = Return payload ->
  ToBoolean payload = Some b ->
  (b = true -> get payload "exp" = Some Undefined) ->
  isTokenExpired now token = Return (negb b) /\
  (forall props, payload = Obj props -> isTokenExpired now token = Return false).
Proof.
  intros Hd Hb He.
  assert (isTokenExpired now token = Return (negb b)) as Hr.
  { unfold isTokenExpired. rewrite Hd, Hb. destruct b; [|done].
    by rewrite (He eq_refl). }
  split; [done|]. intros props ->. rewrite Hr. by injection Hb as <-.
Qed.

Lemma payload_without_exp_witness :
  isTokenExpired 99999999999999 token_without_exp = Return false.
Proof.
  exact (proj1 (payload_without_exp token_without_exp (Obj []) true
                  99999999999999 eq_refl eq_refl (fun _ => eq_refl))).
Defined.

(** X13: expiry is monotone in time: a token reported expired stays
    expired at every later instant, and one reported valid was valid at
    every earlier instant. *)
Theorem expiry_monotone (token : string) (now later : Z) :
  now <= later ->
  (isTokenExpired now token = Return true ->
   isTokenExpired later token = Return true) /\
  (isTokenExpired later token = Return false ->
   isTokenExpired now token = Return false).
Proof.
  intros Hle. unfold isTokenExpired.
  destruct (decodeToken token) as [payload|e|]; try done.
  destruct (ToBoolean payload) as [[|]|]; try done.
  destruct (get payload "exp") as [e|]; try done.
  destruct (ToNumber e) as [x| |]; try done.
  destruct (_ ≫= _) as [[|z]|]; try done. simpl.
  split; intros [= Hz]; f_equal.
  - apply Z.leb_le in Hz. apply Z.leb_le. lia.
  - apply Z.leb_gt in Hz. apply Z.leb_gt. lia.
Qed.

Lemma expiry_monotone_witness :
  isTokenExpired 1800000000000 token_2023 = Return true.
Proof.
  refine (proj1 (expiry_monotone token_2023 1700000000000 1800000000000 _) _).
  - lia.
  - reflexivity.
Defined.

(** X14: [isTokenExpired] is not free of exceptions. [decodeToken] turns
    every failure inside into [null], but [payload.exp * 1000] is computed
    outside its [try]; the call throws, and then a [TypeError], exactly
    when the payload is truthy and its [exp] has no string form: an object
    with a [toString] member of its own, or an array that holds one. An
    [exp] that is any other object gives [NaN] and a token that never
    expires. *)
Theorem isTokenExpired_throws (token : string) (now : Z) :
  (forall e, isTokenExpired now token = Throw e <->
     e = TypeError_ /\
     exists payload x,
       decodeToken token = Return payload /\
       ToBoolean payload = Some true /\
       get payload "exp" = Some x /\
       unconvertible x) /\
  (forall props x,
     decodeToken token = Return (Obj props) ->
     own_prop props "exp" = Some (Obj x) ->
     isTokenExpired now token =
       match own_prop x "toString" with
       | Some _ => Throw TypeError_
       | None => Return false
       end).
Proof.
  split.
  - intros e. unfold isTokenExpired.
    destruct (decodeToken token) as [payload|e'|] eqn:Hd.
    + destruct (ToBoolean payload) as [[|]|] eqn:Hb.
      * assert (exists x, get payload "exp" = Some x) as [x Hx]
          by (destruct payload; simpl in *; eauto; discriminate).
        rewrite Hx.
        pose proof (ToNumber_unconvertible x) as Hu.
        destruct (ToNumber x) as [n| |].
        -- split.
           ++ by destruct (_ ≫= _).
           ++ intros (_ & p & y & [= <-] & _ & Hy & Hc).
              rewrite Hx in Hy. injection Hy as <-.
              apply Hu in Hc. discriminate.
        -- split.
           ++ intros [= <-]. split; [done|].
              exists payload, x. repeat split; try done. by apply Hu.
           ++ by intros [-> _].
        -- split; [done|].
           intros (_ & p & y & [= <-] & _ & Hy & Hc).
           rewrite Hx in Hy. injection Hy as <-. apply Hu in Hc. discriminate.
      * split; [done|]. intros (_ & p & y & [= <-] & Hb' & _). congruence.
      * split; [done|]. intros (_ & p & y & [= <-] & Hb' & _). congruence.
    + exfalso. unfold decodeToken in Hd.
      destruct (atob _); [|done]. by destruct (JSON_parse _).
    + split; [done|]. by intros (_ & p & y & ? & _).
  - intros props x Hd Hp. unfold isTokenExpired. rewrite Hd. simpl.
    rewrite Hp. simpl. by destruct (own_prop x "toString").
Qed.

End Unverified.

(** ** What [apiFetch] sends and how it ends *)

Section Requests.
Import Js Api Auth Spec Sample.
Local Open Scope Z_scope.

Variable url : string.

Lemma headers_set_Some (name v : string) (h h' : gmap string string) :
  headers_set name v h = Some h' <->
  is_header_name name = true /\ is_header_value (normalize v) = true /\
  h' = <[to_lower name := normalize v]> h.
Proof.
  unfold headers_set. split.
  - destruct (is_header_name name); [|done].
    destruct (is_header_value _); [|done]. simpl. by intros [= <-].
  - by intros (-> & -> & ->).
Qed.

Lemma apiFetch_request_steps (w : Window) (randomUUID : option string)
    (endpoint : string) (options : RequestInit) :
  apiFetch_request url w randomUUID endpoint options =
    match new_Headers (init_headers options) with
    | None => None
    | Some h0 =>
        match (if truthy (getToken w)
               then headers_set "Authorization" ("Bearer " +:+ default "" (getToken w))
                      (<["content-type" := "application/json"]> h0)
               else Some (<["content-type" := "application/json"]> h0)) with
        | None => None
        | Some h1 =>
            match randomUUID with
            | None => None
            | Some rid =>
                match headers_set "X-Request-ID" rid h1 with
                | None => None
                | Some h2 =>
                    Some (rid, {| req_url := url +:+ endpoint;
                                  req_method := init_method options;
                                  req_headers := h2;
                                  req_body := init_body options;
                                  req_credentials := "include" |})
                end
            end
        end
    end.
Proof. unfold apiFetch_request. by destruct (new_Headers _). Qed.

(** What a request that [apiFetch] built looks like. *)
Lemma apiFetch_request_Some (w : Window) (randomUUID : option string)
    (endpoint : string) (options : RequestInit) (rid : string) (r : Request) :
  apiFetch_request url w randomUUID endpoint options = Some (rid, r) ->
  exists h0,
    new_Headers (init_headers options) = Some h0 /\
    sendable w randomUUID rid /\
    req_url r = url +:+ endpoint /\
    req_method r = init_method options /\
    req_body r = init_body options /\
    req_credentials r = "include" /\
    headers_get "Content-Type" (req_headers r) = Some "application/json" /\
    headers_get "X-Request-ID" (req_headers r) = Some (normalize rid) /\
    headers_get "Authorization" (req_headers r) =
      (if truthy (getToken w)
       then Some (normalize ("Bearer " +:+ default "" (getToken w)))
       else headers_get "Authorization" h0) /\
    (forall name,
       to_lower name <> "content-type" -> to_lower name <> "authorization" ->
       to_lower name <> "x-request-id" ->
       headers_get name (req_headers r) = headers_get name h0).
Proof.
  rewrite apiFetch_request_steps.
  destruct (new_Headers _) as [h0|]; [|done].
  intros Hq. exists h0. split; [done|].
  assert (exists h1,
            (if truthy (getToken w)
             then headers_set "Authorization" ("Bearer " +:+ default "" (getToken w))
                    (<["content-type" := "application/json"]> h0)
             else Some (<["content-type" := "application/json"]> h0)) = Some h1 /\
            headers_set "X-Request-ID" rid h1 = Some (req_headers r) /\
            randomUUID = Some rid /\
            req_url r = url +:+ endpoint /\ req_method r = init_method options /\
            req_body r = init_body options /\ req_credentials r = "include")
    as (h1 & H1 & Hx & Hu & Hrest).
  { destruct (if truthy (getToken w) then _ else _) as [h1|]; [|done].
    destruct randomUUID as [id|]; [|done].
    destruct (headers_set "X-Request-ID" id h1) as [h2|] eqn:Hx; [|done].
    injection Hq as <- <-. exists h1. by repeat split. }
  apply headers_set_Some in Hx as (_ & Hv & Hx).
  change (to_lower "X-Request-ID") with "x-request-id" in Hx.
  unfold headers_get. rewrite Hx.
  change (to_lower "Content-Type") with "content-type".
  change (to_lower "X-Request-ID") with "x-request-id".
  change (to_lower "Authorization") with "authorization".
  destruct (truthy (getToken w)) eqn:Ht.
  - apply headers_set_Some in H1 as (_ & Ha & ->).
    change (to_lower "Authorization") with "authorization".
    split.
    { split; [done|]. split; [done|]. intros t Hg _. rewrite Hg in Ha. exact Ha. }
    destruct Hrest as (-> & -> & -> & ->).
    repeat split; rewrite ?lookup_insert_eq; try done;
      repeat (rewrite lookup_insert_ne by done); rewrite ?lookup_insert_eq; try done.
    intros name N1 N2 N3. by rewrite !lookup_insert_ne.
  - injection H1 as <-.
    split.
    { split; [done|]. split; [done|]. intros t Hg Hne. rewrite Hg in Ht.
      simpl in Ht. apply String.eqb_neq in Hne. by rewrite Hne in Ht. }
    destruct Hrest as (-> & -> & -> & ->).
    repeat split; rewrite ?lookup_insert_eq; try done;
      repeat (rewrite lookup_insert_ne by done); rewrite ?lookup_insert_eq; try done.
    intros name N1 N2 N3. by rewrite !lookup_insert_ne.
Qed.

(** When nothing stands in the way, the request is built. *)
Lemma apiFetch_request_built (w : Window) (randomUUID : option string)
    (endpoint : string) (options : RequestInit) (rid : string) :
  sendable w randomUUID rid ->
  is_Some (new_Headers (init_headers options)) ->
  exists r, apiFetch_request url w randomUUID endpoint options = Some (rid, r).
Proof.
  intros (-> & Hv & Ht) [h0 Hh]. rewrite apiFetch_request_steps, Hh.
  assert (forall h, headers_set "X-Request-ID" rid h
                    = Some (<["x-request-id" := normalize rid]> h)) as Hx.
  { intros h. by apply headers_set_Some. }
  destruct (truthy (getToken w)) eqn:Htr.
  - destruct (getToken w) as [t|]; [|done]. simpl in Htr.
    apply negb_true_iff, String.eqb_neq in Htr.
    change (default "" (Some t)) with t.
    assert (headers_set "Authorization" ("Bearer " +:+ t)
              (<["content-type" := "application/json"]> h0)
            = Some (<["authorization" := normalize ("Bearer " +:+ t)]>
                      (<["content-type" := "application/json"]> h0))) as ->.
    { apply headers_set_Some. split; [done|]. split; [by apply Ht | done]. }
    rewrite Hx. eauto.
  - rewrite Hx. eauto.
Qed.

Lemma sendable_without_token (w : Window) (rid : string) :
  getToken w = None ->
  is_header_value (normalize rid) = true ->
  sendable w (Some rid) rid.
Proof. intros Hg Hv. split; [done|]. split; [done|]. intros t Ht. congruence. Qed.

Lemma apiFetch_sends_request (w : Window) (randomUUID : option string)
    (endpoint : string) (options : RequestInit) (rid : string) (r : Request) :
  apiFetch_request url w randomUUID endpoint options = Some (rid, r) ->
  sends (fun fetch => apiFetch url w randomUUID fetch endpoint options) rid r.
Proof. intros Hq fetch. unfold apiFetch. by rewrite Hq. Qed.

(** X4: before it calls [fetch], [apiFetch] builds one request or throws a
    [TypeError]. The request is built exactly when the caller's headers are
    valid, [crypto.randomUUID] returns an id that is a header value, and
    the stored token, if there is a non-empty one, gives a header value
    [Bearer <token>] (no NUL, line feed or carriage return inside); else
    [fetch] is never called. The request built is the one request [fetch]
    is called with: it goes to the API URL followed by the endpoint, with
    the caller's method and body and with credentials included; its content
    type is [application/json] and its request id the fresh one, whatever
    the caller passed under any spelling; it carries [Bearer <token>],
    without the whitespace at its end, when a non-empty token is stored,
    and otherwise whatever [Authorization] the caller passed; every other
    header is the caller's. *)
Theorem apiFetch_sends (w : Window) (randomUUID : option string)
    (endpoint : string) (options : RequestInit) :
  (apiFetch_request url w randomUUID endpoint options = None ->
   forall fetch, apiFetch url w randomUUID fetch endpoint options = Throw TypeError_) /\
  (forall rid,
     (exists r, apiFetch_request url w randomUUID endpoint options = Some (rid, r)) <->
     sendable w randomUUID rid /\ is_Some (new_Headers (init_headers options))) /\
  (forall rid r,
     apiFetch_request url w randomUUID endpoint options = Some (rid, r) ->
     sends (fun fetch => apiFetch url w randomUUID fetch endpoint options) rid r /\
     req_url r = url +:+ endpoint /\
     req_method r = init_method options /\
     req_body r = init_body options /\
     req_credentials r = "include" /\
     headers_get "Content-Type" (req_headers r) = Some "application/json" /\
     headers_get "X-Request-ID" (req_headers r) = Some (normalize rid) /\
     (forall t, getToken w = Some t -> t <> "" ->
        headers_get "authorization" (req_headers r)
        = Some (normalize ("Bearer " +:+ t))) /\
     (isAuthenticated w = false ->
        headers_get "Authorization" (req_headers r)
        = new_Headers (init_headers options) ≫= headers_get "Authorization") /\
     (forall name,
        to_lower name <> "content-type" -> to_lower name <> "authorization" ->
        to_lower name <> "x-request-id" ->
        headers_get name (req_headers r)
        = new_Headers (init_headers options) ≫= headers_get name)).
Proof.
  split; [intros Hq fetch; unfold apiFetch; by rewrite Hq|].
  split.
  - intros rid. split.
    + intros [r Hq]. apply apiFetch_request_Some in Hq as (h0 & Hh & Hs & _).
      split; [done|]. by exists h0.
    + intros [Hs Hh]. by apply apiFetch_request_built.
  - intros rid r Hq. split; [by apply apiFetch_sends_request|].
    apply apiFetch_request_Some in Hq
      as (h0 & Hh & _ & Hu & Hm & Hb & Hc & Hct & Hx & Ha & Ho).
    rewrite Hh. simpl. repeat split; try done.
    + intros t Ht Hne.
      change (headers_get "authorization") with (headers_get "Authorization").
      rewrite Ha, Ht. simpl. apply String.eqb_neq in Hne. by rewrite Hne.
    + intros Hn. rewrite Ha. unfold isAuthenticated in Hn. by rewrite Hn.
Qed.

Example token_with_space_is_trimmed :
  (exists r,
     apiFetch_request "https://api.inopsio.test"
       (Some (browser_with_token token_with_space)) (Some "id-3")
       "/api/v1/notes" no_options = Some ("id-3", r) /\
     headers_get "Authorization" (req_headers r) = Some "Bearer abc") /\
  apiFetch "https://api.inopsio.test"
    (Some (browser_with_token token_with_space)) (Some "id-3")
    server_bearer_abc "/api/v1/notes" no_options
  = Return (Obj []).
Proof. split; [eexists; split; reflexivity | reflexivity]. Qed.

Example no_randomUUID_no_request :
  apiFetch "https://api.inopsio.test" (Some fresh_browser) None
    server_no_content "/api/v1/notes" no_options
  = Throw TypeError_.
Proof. reflexivity. Qed.

Example caller_content_type_is_replaced :
  apiFetch "https://api.inopsio.test" (Some fresh_browser) (Some "id-3")
    server_json_only "/api/v1/notes" text_options
  = Return (Obj []).
Proof. reflexivity. Qed.

(** X5: how a call of [apiFetch] can end. When no request can be built it
    throws a [TypeError] and [fetch] is not called; without a response it
    throws a [TypeError] too; with a response, a value is returned only for
    an ok status (the empty object for 204, else the parsed body), an
    [ApiError] is thrown only for an error status with a body other than
    [null] and then carries that status, the body's [detail], the fallback
    message for a falsy [detail] and else its string form, and as request
    id the response's [X-Request-ID] header when that is present and not
    empty and else the id that was sent; a [SyntaxError] comes only from an
    ok response other than 204 whose body is not JSON, a [TypeError] only
    from an error response whose body is [null] or whose [detail] has no
    string form. The model stops only on an error response whose [detail]
    is, or holds, a number that is no exact integer. A plain [Error] is
    never thrown. *)
Theorem apiFetch_outcomes (w : Window) (randomUUID : option string) (fetch : Fetch)
    (endpoint : string) (options : RequestInit) :
  let result := apiFetch url w randomUUID fetch endpoint options in
  let built := apiFetch_request url w randomUUID endpoint options in
  (built = None -> result = Throw TypeError_) /\
  (forall rid request, built = Some (rid, request) ->
     (fetch request = None -> result = Throw TypeError_) /\
     (forall response, fetch request = Some response ->
        (forall v, result = Return v ->
           ok response = true /\
           (resp_status response = 204 /\ v = Obj [] \/
            resp_status response <> 204 /\ resp_json response = Some v)) /\
        (forall e, result = Throw (ApiError_ e) ->
           ok response = false /\
           readable_body response /\
           status e = resp_status response /\
           detail e = body_detail response /\
           (ToBoolean (detail e) = Some false /\ message e = fallback_message response \/
            ToBoolean (detail e) = Some true /\ ToString (detail e) = Converted (message e)) /\
           requestId e =
             match headers_get "X-Request-ID" (resp_headers response) with
             | Some id => if String.eqb id "" then rid else id
             | None => rid
             end) /\
        (result = Throw SyntaxError_ ->
           ok response = true /\ resp_status response <> 204 /\
           resp_json response = None) /\
        (result = Throw TypeError_ ->
           ok response = false /\
           (~ readable_body response \/ unconvertible (body_detail response))) /\
        (result = Beyond ->
           ok response = false /\ readable_body response /\
           (ToBoolean (body_detail response) = None \/
            ToString (body_detail response) = Inexact)))) /\
  (forall m, result <> Throw (Error_ m)).
Proof.
  intros result built. subst result built. unfold apiFetch.
  destruct (apiFetch_request url w randomUUID endpoint options) as [[rid0 r0]|];
    [|by repeat split].
  split; [done|]. split.
  - intros rid request [= <- <-]. split; [by intros ->|].
    intros response ->. unfold apiFetch_response.
    destruct (ok response) eqn:Hok; simpl.
    + destruct (Z.eqb_spec (resp_status response) 204) as [Hs|Hs].
      * split; [|split; [|split; [|split]]]; try done.
        intros v [= <-]. auto.
      * destruct (resp_json response) as [body|];
          (split; [|split; [|split; [|split]]]); try done.
        intros v [= <-]. auto.
    + destruct (get _ "detail") as [d|] eqn:Hd.
      * assert (readable_body response) as Hr.
        { unfold readable_body.
          destruct (resp_json response) as [[| | | | | |]|]; simpl in Hd;
            split; discriminate. }
        rewrite (get_error_detail _ Hr) in Hd. injection Hd as <-.
        unfold or_message.
        destruct (ToBoolean (body_detail response)) as [[|]|] eqn:Hb.
        -- pose proof (ToString_unconvertible (body_detail response)) as Hu.
           destruct (ToString (body_detail response)) as [m| |] eqn:Hm;
             (split; [|split; [|split; [|split]]]); try done.
           ++ intros e [= <-]. simpl. repeat split; try done; [by apply Hr | by apply Hr | by right |].
              unfold headers_get. destruct (_ !! _) as [id|]; simpl; [|done].
              by destruct (String.eqb id "").
           ++ intros _. split; [done|]. right. by apply Hu.
           ++ intros _. repeat split; try done; [by apply Hr | by apply Hr | by right].
        -- split; [|split; [|split; [|split]]]; try done.
           intros e [= <-]. simpl. repeat split; try done; [by apply Hr | by apply Hr | by left |].
           unfold headers_get. destruct (_ !! _) as [id|]; simpl; [|done].
           by destruct (String.eqb id "").
        -- split; [|split; [|split; [|split]]]; try done.
           intros _. repeat split; try done; [by apply Hr | by apply Hr | by left].
      * split; [|split; [|split; [|split]]]; try done.
        intros _. split; [done|]. left. intros Hr.
        rewrite (get_error_detail _ Hr) in Hd. discriminate.
  - intros m. destruct (fetch r0) as [response|]; [|done].
    unfold apiFetch_response. destruct (ok response); simpl.
    + destruct (_ =? _); [done|]. by destruct (resp_json response).
    + destruct (get _ "detail") as [d|]; [|done]. by destruct (or_message d _).
Qed.

Variable JSON_stringify : value -> option string.

Lemma wrapper_sends (w : Window) (randomUUID : option string) (endpoint : string)
    (method : string) (body : option string) (rid : string) :
  sendable w randomUUID rid ->
  exists r,
    req_url r = url +:+ endpoint /\
    req_method r = Some method /\
    req_body r = body_text <$> body /\
    sends (fun fetch => apiFetch url w randomUUID fetch endpoint
                          (request_init method body)) rid r.
Proof.
  intros Hs.
  destruct (apiFetch_request_built w randomUUID endpoint (request_init method body)
              rid Hs) as [r Hq]; [by eexists|].
  exists r. pose proof (apiFetch_sends_request _ _ _ _ _ _ Hq) as Hsend.
  apply apiFetch_request_Some in Hq as (h0 & _ & _ & Hu & Hm & Hb & _).
  by repeat split.
Qed.

(** X6: when nothing stands in the way of a request, [api.post] calls
    [fetch] with a POST request to the API URL followed by its endpoint
    that has no body at all when its data is falsy (omitted, [null],
    [false], [0] or the empty string) and the stringified data otherwise,
    whereas [api.put] and [api.patch] send a PUT and a PATCH request with
    whatever they are given, stringified; each call ends as [apiFetch]
    ends on the answer to that request. *)
Theorem api_post_drops_falsy_data (w : Window) (randomUUID : option string)
    (endpoint : string) (data : value) (b : bool) (rid : string) :
  ToBoolean data = Some b ->
  sendable w randomUUID rid ->
  (exists r,
     req_url r = url +:+ endpoint /\
     req_method r = Some "POST" /\
     req_body r = (if b then body_text <$> JSON_stringify data else None) /\
     sends (fun fetch => api_post url JSON_stringify w randomUUID fetch endpoint data)
       rid r) /\
  (exists r,
     req_url r = url +:+ endpoint /\
     req_method r = Some "PUT" /\
     req_body r = body_text <$> JSON_stringify data /\
     sends (fun fetch => api_put url JSON_stringify w randomUUID fetch endpoint data)
       rid r) /\
  (exists r,
     req_url r = url +:+ endpoint /\
     req_method r = Some "PATCH" /\
     req_body r = body_text <$> JSON_stringify data /\
     sends (fun fetch => api_patch url JSON_stringify w randomUUID fetch endpoint data)
       rid r).
Proof.
  intros Hb Hs. split; [|split].
  - destruct (wrapper_sends w randomUUID endpoint "POST"
                (if b then JSON_stringify data else None) rid Hs)
      as (r & Hu & Hm & Hbody & Hsend).
    exists r. split; [done|]. split; [done|]. split.
    + rewrite Hbody. by destruct b.
    + intros fetch. unfold api_post, api_post_init. rewrite Hb. simpl.
      apply Hsend.
  - by apply wrapper_sends.
  - by apply wrapper_sends.
Qed.

End Requests.

Lemma apiFetch_outcomes_witness :
  Api.apiFetch "https://api.inopsio.test" (Some Sample.fresh_browser) (Some "id-1")
    Sample.server_down "/api/v1/users" Sample.no_options
  = Api.Throw Api.TypeError_.
Proof.
  exact (proj1 (proj1 (proj2 (apiFetch_outcomes "https://api.inopsio.test"
                  (Some Sample.fresh_browser) (Some "id-1") Sample.server_down
                  "/api/v1/users" Sample.no_options)) _ _ eq_refl) eq_refl).
Defined.

Lemma api_post_drops_falsy_data_witness :
  exists r,
    Api.req_method r = Some "POST" /\
    Api.req_body r = None /\
    Spec.sends
      (fun fetch =>
         Api.api_post "https://api.inopsio.test" Sample.stringify_primitive
           (Some Sample.fresh_browser) (Some "id-1") fetch
           "/api/v1/counters" (Js.Number (Js.Dec 0 0)))
      "id-1" r.
Proof.
  destruct (proj1 (api_post_drops_falsy_data "https://api.inopsio.test"
                     Sample.stringify_primitive (Some Sample.fresh_browser)
                     (Some "id-1") "/api/v1/counters" (Js.Number (Js.Dec 0 0))
                     false "id-1" eq_refl
                     (sendable_without_token (Some Sample.fresh_browser) "id-1"
                        eq_refl eq_refl)))
    as (r & _ & Hm & Hb & Hs).
  exists r. by repeat split.
Defined.

Example post_without_data_has_no_body :
  Api.api_post "https://api.inopsio.test" Sample.stringify_primitive
    (Some Sample.fresh_browser) (Some "id-1") Sample.server_bodiless_only
    "/api/v1/counters" (Js.Number (Js.Dec 0 0))
  = Api.Return (Js.Obj []) /\
  Api.api_put "https://api.inopsio.test" Sample.stringify_primitive
    (Some Sample.fresh_browser) (Some "id-1") Sample.server_bodiless_only
    "/api/v1/counters" (Js.Number (Js.Dec 0 0))
  = Api.Throw (Api.ApiError_ {| Api.message := "Request failed with status 500";
                                Api.status := 500; Api.detail := Js.Undefined;
                                Api.requestId := "id-1" |}).
Proof. split; reflexivity. Qed.

(** ** Login, then authenticated calls *)

Section LoginFlow.
Import Js Api Auth Spec Sample.

Variable url : string.

(** X7: [login] stores a token only when it returns the response: when the
    call ends in any other way the window is exactly as before; when it
    returns, the server answered with an ok status and that body, and the
    window is the old one after one [setToken]. It never throws an
    [ApiError]. *)
Theorem login_stores_only_on_success (w : Window) (fetch : Fetch)
    (email password : string) :
  let after := fst (login url w fetch email password) in
  let result := snd (login url w fetch email password) in
  ((forall data, result <> Return data) -> after = w) /\
  (forall data, result = Return data ->
     exists response t,
       fetch (login_request url email password) = Some response /\
       ok response = true /\ resp_json response = Some data /\
       after = setToken t w) /\
  (forall e, result <> Throw (ApiError_ e)).
Proof.
  intros after result. subst after result. unfold login.
  destruct (fetch _) as [response|]; [|by repeat split].
  destruct (ok response) eqn:Hok; simpl.
  - destruct (resp_json response) as [data|] eqn:Hj; [|by repeat split].
    destruct (get data "access_token") as [tok|]; [|by repeat split].
    destruct w as [b|]; simpl.
    + destruct (ToString tok) as [t| |]; simpl; [|by repeat split ..].
      split; [intros Hn; by destruct (Hn data)|]. split; [|done].
      intros data' [= <-]. by exists response, t.
    + split; [done|]. split; [|done].
      intros data' [= <-]. by exists response, "".
  - destruct (get _ "detail") as [d|]; [|by repeat split].
    destruct (or_message d _); by repeat split.
Qed.

(** X8: how [login] fails. Without a response it throws a [TypeError]; on
    an error status with a body other than [null] it throws an [Error]
    whose message is the body's [detail] when that is a non-empty string
    and [Login failed] when [detail] is absent or falsy (a body that is not
    JSON counts as the empty object); on an error status with the body
    [null] it throws a [TypeError]; on an ok status with a body that is not
    JSON it throws the [SyntaxError]. In all these cases nothing is
    stored. *)
Theorem login_failures (w : Window) (fetch : Fetch) (email password : string) :
  let request := login_request url email password in
  (fetch request = None ->
   login url w fetch email password = (w, Throw TypeError_)) /\
  (forall response, fetch request = Some response ->
     (ok response = false -> readable_body response ->
      forall d, body_detail response = Str d -> d <> "" ->
      login url w fetch email password = (w, Throw (Error_ d))) /\
     (ok response = false -> readable_body response ->
      ToBoolean (body_detail response) = Some false ->
      login url w fetch email password = (w, Throw (Error_ "Login failed"))) /\
     (ok response = false -> resp_json response = Some Null ->
      login url w fetch email password = (w, Throw TypeError_)) /\
     (ok response = true -> resp_json response = None ->
      login url w fetch email password = (w, Throw SyntaxError_))).
Proof.
  intros request. subst request. unfold login. split; [by intros ->|].
  intros response ->. split; [|split; [|split]].
  - intros -> Hr d Hd Hne. simpl. rewrite (get_error_detail _ Hr), Hd.
    unfold or_message. simpl. apply String.eqb_neq in Hne. by rewrite Hne.
  - intros -> Hr Hb. simpl. rewrite (get_error_detail _ Hr).
    unfold or_message. by rewrite Hb.
  - by intros -> ->.
  - by intros -> ->.
Qed.

Lemma own_prop_get (props : list (string * value)) (k : string) :
  own_prop props k = None -> get (Obj props) k = Some Undefined.
Proof. intros Hp. simpl. by rewrite Hp. Qed.

(** X9: an ok response whose body is an object without [access_token]
    still counts as a successful login: in a browser the string
    [undefined] is stored as the token, the body is returned, and
    [isAuthenticated] holds afterwards. *)
Theorem login_without_access_token (b : Browser) (fetch : Fetch)
    (email password : string) (response : Response) (props : list (string * value)) :
  fetch (login_request url email password) = Some response ->
  ok response = true ->
  resp_json response = Some (Obj props) ->
  own_prop props "access_token" = None ->
  login url (Some b) fetch email password
    = (setToken "undefined" (Some b), Return (Obj props)) /\
  getToken (fst (login url (Some b) fetch email password)) = Some "undefined" /\
  isAuthenticated (fst (login url (Some b) fetch email password)) = true.
Proof.
  intros Hf Hok Hj Hp.
  assert (login url (Some b) fetch email password
          = (setToken "undefined" (Some b), Return (Obj props))) as Hl.
  { unfold login. rewrite Hf, Hok, Hj. simpl. by rewrite Hp. }
  rewrite Hl. split; [done|]. unfold isAuthenticated. simpl.
  by rewrite lookup_insert_eq.
Qed.

(** X10: after a login that returned a non-empty access token in a
    browser, [getCurrentUser] calls [fetch] with the request
    [GET <api>/api/v1/auth/test-token] that carries the header
    [Authorization: Bearer <that token>] (given that this is a header
    value and that a request id is at hand); after a [logout] the same
    call sends that request without an [Authorization] header. Each call
    ends as [apiFetch] ends on the answer. *)
Theorem login_then_getCurrentUser (b : Browser) (fetch : Fetch)
    (email password redirectTo rid : string) (response : Response)
    (data : value) (tok : string) :
  fetch (login_request url email password) = Some response ->
  ok response = true ->
  resp_json response = Some data ->
  get data "access_token" = Some (Str tok) ->
  tok <> "" ->
  is_header_value (normalize ("Bearer " +:+ tok)) = true ->
  is_header_value (normalize rid) = true ->
  let session := fst (login url (Some b) fetch email password) in
  (exists r,
     req_url r = url +:+ "/api/v1/auth/test-token" /\
     req_method r = Some "GET" /\ req_body r = None /\
     headers_get "Authorization" (req_headers r)
       = Some (normalize ("Bearer " +:+ tok)) /\
     sends (fun fetch' => getCurrentUser url session (Some rid) fetch') rid r) /\
  (exists r,
     req_url r = url +:+ "/api/v1/auth/test-token" /\
     req_method r = Some "GET" /\ req_body r = None /\
     headers_get "Authorization" (req_headers r) = None /\
     sends (fun fetch' =>
              getCurrentUser url (logout redirectTo session) (Some rid) fetch')
       rid r).
Proof.
  intros Hf Hok Hj Ht Hne Hv Hrid session. subst session.
  rewrite (login_accepted url (Some b) fetch email password response data
             (Str tok) tok Hf Hok Hj Ht eq_refl). cbn [fst].
  assert (forall w, sendable w (Some rid) rid ->
            exists r,
              apiFetch_request url w (Some rid) (API_PREFIX +:+ "/auth/test-token")
                (request_init "GET" None) = Some (rid, r)) as Hbuilt.
  { intros w Hs. apply apiFetch_request_built; [done | by eexists]. }
  split.
  - destruct (Hbuilt (setToken tok (Some b))) as [r Hq].
    { split; [done|]. split; [done|]. intros t Hg _. simpl in Hg.
      rewrite lookup_insert_eq in Hg. by injection Hg as <-. }
    exists r. pose proof (apiFetch_sends_request _ _ _ _ _ _ _ Hq) as Hs.
    apply apiFetch_request_Some in Hq as (h0 & _ & _ & Hu & Hm & Hb & _ & _ & _ & Ha & _).
    split; [exact Hu|]. split; [exact Hm|]. split; [exact Hb|]. split; [|exact Hs].
    etrans; [exact Ha|]. simpl. rewrite lookup_insert_eq. simpl.
    apply String.eqb_neq in Hne. by rewrite Hne.
  - destruct (Hbuilt (logout redirectTo (setToken tok (Some b)))) as [r Hq].
    { apply sendable_without_token; [|done]. simpl. apply lookup_delete_eq. }
    exists r. pose proof (apiFetch_sends_request _ _ _ _ _ _ _ Hq) as Hs.
    apply apiFetch_request_Some in Hq as (h0 & Hh & _ & Hu & Hm & Hb & _ & _ & _ & Ha & _).
    split; [exact Hu|]. split; [exact Hm|]. split; [exact Hb|]. split; [|exact Hs].
    etrans; [exact Ha|]. simpl. rewrite lookup_delete_eq. simpl.
    injection Hh as <-. reflexivity.
Qed.

End LoginFlow.

Section LoginSamples.
Import Js Api Auth Spec Sample.

Lemma login_failures_witness :
  login "https://api.inopsio.test" (Some fresh_browser) server_login_rejected
    "ada@inopsio.test" "wrong"
  = (Some fresh_browser, Throw (Error_ "Incorrect email or password")).
Proof.
  refine (proj1 (proj2 (login_failures "https://api.inopsio.test"
            (Some fresh_browser) server_login_rejected "ada@inopsio.test" "wrong")
            _ eq_refl) eq_refl _ "Incorrect email or password" eq_refl _).
  - split; discriminate.
  - discriminate.
Defined.

Lemma login_without_access_token_witness :
  getToken (fst (login "https://api.inopsio.test" (Some fresh_browser)
                   server_login_empty "ada@inopsio.test" "s3cret"))
  = Some "undefined".
Proof.
  exact (proj1 (proj2 (login_without_access_token "https://api.inopsio.test"
    fresh_browser server_login_empty "ada@inopsio.test" "s3cret"
    _ [] eq_refl eq_refl eq_refl eq_refl))).
Defined.

Lemma login_then_getCurrentUser_witness :
  exists r,
    headers_get "Authorization" (req_headers r) = Some ("Bearer " +:+ token_2023) /\
    sends
      (fun fetch' =>
         getCurrentUser "https://api.inopsio.test"
           (fst (login "https://api.inopsio.test" (Some fresh_browser) server_login_ok
                   "ada@inopsio.test" "s3cret"))
           (Some "id-2") fetch')
      "id-2" r.
Proof.
  destruct (proj1 (login_then_getCurrentUser "https://api.inopsio.test"
                     fresh_browser server_login_ok "ada@inopsio.test" "s3cret"
                     "/signin" "id-2" _ _ token_2023
                     eq_refl eq_refl eq_refl eq_refl ltac:(discriminate)
                     eq_refl eq_refl))
    as (r & _ & _ & _ & Ha & Hs).
  exists r. split; [exact Ha | exact Hs].
Defined.

Example getCurrentUser_after_login :
  getCurrentUser "https://api.inopsio.test"
    (fst (login "https://api.inopsio.test" (Some fresh_browser) server_login_ok
            "ada@inopsio.test" "s3cret"))
    (Some "id-2") server_bearer_only
  = Return (Obj []) /\
  getCurrentUser "https://api.inopsio.test" (Some fresh_browser)
    (Some "id-2") server_bearer_only
  = Throw (ApiError_ {| message := "Request failed with status 401"; status := 401;
                        detail := Undefined; requestId := "id-2" |}).
Proof. split; reflexivity. Qed.

End LoginSamples.

(** ** EdgeGuard: what follows a redirect, and what it never looks at *)

Section EdgeGuardFurther.
Import Middleware Spec Sample.

Ltac no_occurrence H a :=
  cbv beta iota delta [String.append] in H; fold String.append in H;
  first [ discriminate H
        | destruct a as [|? a]; no_occurrence H a ].

Lemma signin_target_plain (c1 c2 : ascii) :
  ~ protected_path (String "/" (String c1 (String c2 "/signin"))).
Proof. intros [(a & b & H) | (a & b & H)]; no_occurrence H a. Qed.

Lemma dashboard_target_plain (c1 c2 : ascii) :
  ~ auth_entry_path (String "/" (String c1 (String c2 "/dashboard"))).
Proof.
  intros [(a & b & H) | [(a & b & H) | (a & b & H)]]; no_occurrence H a.
Qed.

Lemma locale_two_letters (path : string) :
  exists c1 c2, locale path = String c1 (String c2 "") /\
                lowercase c1 /\ lowercase c2.
Proof.
  unfold locale. destruct (localeMatch path) as [l|] eqn:E.
  - apply localeMatch_Some in E as (c1 & c2 & (H1 & H2 & _) & ->). eauto.
  - exists "e"%char, "n"%char. repeat split; vm_compute; intuition discriminate.
Qed.

Lemma locale_of_target (c1 c2 : ascii) (rest : string) :
  lowercase c1 -> lowercase c2 ->
  locale (String "/" (String c1 (String c2 (String "/" rest))))
  = String c1 (String c2 "").
Proof.
  intros H1 H2. apply locale_of_has_locale.
  split; [done|]. split; [done|]. by exists rest.
Qed.

(** X15: a redirect is final. The request that follows a redirect of the
    middleware (same cookies, the target's path) is let through, so two
    redirects never chain; the target stays on the origin of the request
    and its locale segment is the locale the middleware read from the
    request. *)
Theorem redirect_is_final (req : NextRequest) (u : URL) :
  middleware req = redirect u ->
  middleware (follow req u) = next /\
  url_origin u = origin req /\
  locale (url_pathname u) = locale (pathname req).
Proof.
  intros Hr.
  destruct (locale_two_letters (pathname req)) as (c1 & c2 & Hl & H1 & H2).
  destruct (redirect_target _ _ Hr) as [(_ & Hc & ->) | (_ & Hc & ->)];
    rewrite Hl.
  - split; [|split; [done | by apply locale_of_target]].
    apply otherwise_next.
    + intros [Hp _]. by apply (signin_target_plain c1 c2).
    + intros [_ Hc']. by apply Hc.
  - split; [|split; [done | by apply locale_of_target]].
    apply otherwise_next.
    + intros [_ Hn]. by apply Hn.
    + intros [Ha _]. by apply (dashboard_target_plain c1 c2).
Qed.

Lemma redirect_is_final_witness :
  middleware (follow request_without_cookie (signin_url request_without_cookie "en"))
  = next.
Proof.
  exact (proj1 (redirect_is_final request_without_cookie
                  (signin_url request_without_cookie "en") eq_refl)).
Defined.

(** X16: a path that contains a protected pattern and an auth entry
    pattern is never let through: without a credential it goes to the
    signin entry, and with a credential it goes to the dashboard, so a
    signed-in user cannot open such a protected page. *)
Theorem overlapping_path_never_passes (req : NextRequest) :
  protected_path (pathname req) -> auth_entry_path (pathname req) ->
  middleware req <> next /\
  (credential_present req ->
   middleware req = redirect (dashboard_url req (locale (pathname req)))) /\
  (~ credential_present req ->
   middleware req = redirect (signin_url req (locale (pathname req)))).
Proof.
  intros Hp Ha. split; [|split].
  - pose proof (truthy_token_spec req) as Ht.
    destruct (Js.truthy (cookies req !! TOKEN_KEY)).
    + rewrite auth_entry_with_credential; [done | done | by apply Ht].
    + rewrite protected_without_credential; [done | done |].
      intros Hc. by apply Ht in Hc.
  - by apply auth_entry_with_credential.
  - by apply protected_without_credential.
Qed.

Lemma overlapping_path_never_passes_witness :
  middleware request_login_history
  = redirect (dashboard_url request_login_history "en").
Proof.
  refine (proj1 (proj2 (overlapping_path_never_passes request_login_history _ _)) _).
  - right. by exists "/en", "/login-history".
  - right. right. by exists "/en/admin", "-history".
  - exists Sample.token_2023. split; [reflexivity | discriminate].
Defined.

(** X17: the decision reads nothing of a request but its origin, its path
    and whether a non-empty token cookie is there: the value of the token
    and all other cookies are never looked at, so any non-empty string
    passes for a credential. *)
Theorem decision_reads_presence_only (req req' : NextRequest) :
  origin req = origin req' ->
  pathname req = pathname req' ->
  (credential_present req <-> credential_present req') ->
  middleware req = middleware req'.
Proof.
  intros Ho Hp Hc. rewrite !middleware_cases.
  assert (Js.truthy (cookies req !! TOKEN_KEY) = Js.truthy (cookies req' !! TOKEN_KEY)) as ->.
  { pose proof (truthy_token_spec req). pose proof (truthy_token_spec req').
    destruct (Js.truthy (cookies req !! TOKEN_KEY)),
             (Js.truthy (cookies req' !! TOKEN_KEY)); intuition. }
  unfold signin_url, dashboard_url. by rewrite Ho, Hp.
Qed.

Lemma decision_reads_presence_only_witness :
  middleware request_with_garbage = middleware request_with_token.
Proof.
  apply decision_reads_presence_only; [reflexivity | reflexivity |].
  split; intros _.
  - exists Sample.token_2023. split; [reflexivity | discriminate].
  - exists "garbage". split; [reflexivity | discriminate].
Defined.

End EdgeGuardFurther.

(** ** Payloads in the URL-safe alphabet *)

Section Base64url.
Import Js Api Auth Spec Sample.
Local Open Scope Z_scope.

Lemma contains_occurs (c : ascii) (s : string) :
  contains s (String c "") -> occurs c s.
Proof.
  intros (a & b & ->). induction a as [|x a IH]; [by left|].
  right. exact IH.
Qed.

Lemma occurs_remove_ws (c : ascii) (s : string) :
  is_ascii_ws c = false -> occurs c s -> occurs c (remove_ws s).
Proof.
  intros Hc. induction s as [|x s IH]; simpl; [done|].
  intros [-> | Ho].
  - rewrite Hc. by left.
  - destruct (is_ascii_ws x); [auto | right; auto].
Qed.

Lemma occurs_drop_last_eq (c : ascii) (s : string) :
  c <> "="%char -> occurs c s -> occurs c (drop_last_eq s).
Proof.
  intros Hc. induction s as [|x s IH]; [done|].
  destruct s as [|y s].
  - simpl. intros [-> | []].
    destruct (Ascii.eqb_spec c "="); [done | by left].
  - intros [-> | Ho]; [by left|]. right. by apply IH.
Qed.

Lemma occurs_base64_indices (c : ascii) (s : string) :
  base64_index c = None -> occurs c s -> base64_indices s = None.
Proof.
  intros Hc. induction s as [|x s IH]; simpl; [done|].
  intros [-> | Ho].
  - by rewrite Hc.
  - rewrite (IH Ho). by destruct (base64_index x).
Qed.

Lemma atob_rejects (c : ascii) (data : string) :
  is_ascii_ws c = false -> c <> "="%char -> base64_index c = None ->
  occurs c data -> atob data = None.
Proof.
  intros Hw He Hi Ho. unfold atob.
  apply (occurs_remove_ws _ _ Hw) in Ho.
  set (d := remove_ws data) in *.
  assert (occurs c (if (String.length d mod 4 =? 0)%nat
                    then drop_last_eq (drop_last_eq d) else d)) as Ho'.
  { destruct (_ =? _)%nat; [|done].
    apply (occurs_drop_last_eq c _ He). by apply (occurs_drop_last_eq c _ He). }
  destruct (_ =? 1)%nat; [done|].
  by rewrite (occurs_base64_indices _ _ Hi Ho').
Qed.

(** X18: a payload segment written in the URL-safe base64 alphabet, that
    is one in which [-] or [_] occurs, is not decoded: [atob] rejects it,
    [decodeToken] returns [null] and [isTokenExpired] reports the token
    expired at every instant. *)
Theorem base64url_payload_is_rejected (h p rest : string) (c : ascii) (now : Z) :
  ~ contains h "." -> ~ contains p "." ->
  c = "-"%char \/ c = "_"%char ->
  contains p (String c "") ->
  decodeToken (h +:+ "." +:+ p) = Return Null /\
  decodeToken (h +:+ "." +:+ p +:+ "." +:+ rest) = Return Null /\
  isTokenExpired now (h +:+ "." +:+ p +:+ "." +:+ rest) = Return true.
Proof.
  intros Hh Hp Hc Ho. apply contains_occurs in Ho.
  assert (atob p = None) as Ha.
  { destruct Hc as [-> | ->].
    - by apply (atob_rejects "-" p eq_refl).
    - by apply (atob_rejects "_" p eq_refl). }
  destruct (second_segment h p rest Hh Hp) as [H2 H3].
  assert (decodeToken (h +:+ "." +:+ p +:+ "." +:+ rest) = Return Null) as Hd.
  { unfold decodeToken. rewrite H3. simpl. by rewrite Ha. }
  split; [|split; [done|]].
  - unfold decodeToken. rewrite H2. simpl. by rewrite Ha.
  - by apply isTokenExpired_null.
Qed.

Lemma base64url_payload_is_rejected_witness :
  isTokenExpired 0 token_base64url = Return true.
Proof.
  refine (proj2 (proj2 (base64url_payload_is_rejected "h" "eyJhIjoiPz8_In0" "s"
            "_"%char 0 (dot_free "h" eq_refl)
            (dot_free "eyJhIjoiPz8_In0" eq_refl) (or_intror eq_refl) _))).
  by exists "eyJhIjoiPz8", "In0".
Defined.

Example standard_alphabet_decodes :
  decodeToken "h.eyJhIjoiPz8/In0.s" = Return (Obj [("a", Str "???")]).
Proof. reflexivity. Qed.

End Base64url.

(** ** Instances *)

Section Instances.
Import Js Api Auth Spec Sample.

Lemma isAuthenticated_spec_witness :
  exists s, stored (setToken token_2023 (Some fresh_browser)) TOKEN_KEY = Some s /\
            s <> "".
Proof.
  exact (proj1 (proj1 (isAuthenticated_spec
                  (setToken token_2023 (Some fresh_browser)) "" "/signin")) eq_refl).
Defined.

Lemma apiFetch_sends_witness :
  apiFetch "https://api.inopsio.test"
    (Some (browser_with_token token_with_line_feed)) (Some "id-3")
    server_no_content "/api/v1/notes" no_options
  = Throw TypeError_.
Proof.
  exact (proj1 (apiFetch_sends "https://api.inopsio.test"
                  (Some (browser_with_token token_with_line_feed)) (Some "id-3")
                  "/api/v1/notes" no_options) eq_refl server_no_content).
Defined.

Lemma isTokenExpired_throws_witness :
  isTokenExpired 0 token_exp_object = Throw TypeError_ /\
  isTokenExpired 0 token_exp_empty_object = Return false.
Proof.
  split.
  - exact (proj2 (isTokenExpired_throws token_exp_object 0)
             [("exp", Obj [("valueOf", Number (Dec 1 0)); ("toString", Number (Dec 2 0))])]
             [("valueOf", Number (Dec 1 0)); ("toString", Number (Dec 2 0))]
             eq_refl eq_refl).
  - exact (proj2 (isTokenExpired_throws token_exp_empty_object 0)
             [("exp", Obj [])] [] eq_refl eq_refl).
Defined.

Lemma login_stores_only_on_success_witness :
  fst (login "https://api.inopsio.test" (Some fresh_browser) server_login_rejected
         "ada@inopsio.test" "wrong")
  = Some fresh_browser.
Proof.
  apply (proj1 (login_stores_only_on_success "https://api.inopsio.test"
                  (Some fresh_browser) server_login_rejected
                  "ada@inopsio.test" "wrong")).
  intros data. vm_compute. discriminate.
Defined.

End Instances.
